(** * slcan: the LAWICEL serial-line CAN codec and session

    A shallow embedding of [slcan.js]: the JavaScript primitives the file
    relies on ([substr], [Number], [toString], [toUpperCase]), the
    [frame] object, the codec ([_parseFrame], [_packFrame]) and the
    session methods ([send], [_serialWrite], [_serialOpenCallback],
    [_serialRecvCallback]), followed by the properties of the codec and of
    the session that the specification states. *)

From Stdlib Require Import Strings.String Strings.Ascii.
From Stdlib Require Import ZArith NArith PeanoNat List Bool Lia.
Import ListNotations.

Local Open Scope list_scope.
Local Open Scope string_scope.

(* ================================================================== *)
(** ** JavaScript values and primitives *)
(* ================================================================== *)

(** A JavaScript string is a sequence of code units.  The protocol is
    ASCII; the model takes the code units below 256, one [ascii] each. *)

Definition CR : string := String "013"%char EmptyString.
Definition LF : string := String "010"%char EmptyString.
Definition BEL : string := String "007"%char EmptyString.

(** What a [throw] or [console.log] carries: a string (every [throw] of
    the file throws a string literal), or the [TypeError] the runtime
    raises when a property of [undefined] or [null] is read. *)
Inductive jsvalue : Type :=
| VString (s : string)
| VTypeError.

(** A computation that may throw: [inl v] is [throw v], [inr a] a normal
    completion with value [a]. *)
Definition result (A : Type) : Type := (jsvalue + A)%type.

Definition throw {A : Type} (v : jsvalue) : result A := inl v.
Definition ret {A : Type} (a : A) : result A := inr a.
Definition bind {A B : Type} (m : result A) (k : A -> result B) : result B :=
  match m with
  | inl v => inl v
  | inr a => k a
  end.

Notation "x <- m ;; k" := (bind m (fun x => k))
  (at level 61, m at next level, right associativity).

(** A boolean-valued variable or property that may still be [undefined]. *)
Definition truthy (v : option bool) : bool :=
  match v with
  | Some true => true
  | _ => false
  end.

(** [str.substr(start, length)] for non-negative arguments. *)
Definition substr (str : string) (start len : nat) : string :=
  substring start len str.

(** [str.substr(start)] for a non-negative [start]: up to the end. *)
Definition substr_from (str : string) (start : nat) : string :=
  substring start (String.length str - start) str.

(** [str.charCodeAt(i)] of a code unit. *)
Definition charCode (c : ascii) : N := N_of_ascii c.

(** [toUpperCase] on ASCII letters; both call sites apply it to the type
    letter or to the rendering of a number. *)
Definition upper_char (c : ascii) : ascii :=
  let n := charCode c in
  if ((97 <=? n) && (n <=? 122))%N then ascii_of_N (n - 32) else c.

Fixpoint toUpperCase (s : string) : string :=
  match s with
  | EmptyString => EmptyString
  | String c s' => String (upper_char c) (toUpperCase s')
  end.

(** *** Number to string *)

Definition digit_char (d : N) : ascii :=
  match get (N.to_nat d) "0123456789abcdefghijklmnopqrstuvwxyz" with
  | Some c => c
  | None => "?"%char
  end.

(** Digits of [n] in base [radix], most significant first, pushed in
    front of [acc]. *)
Fixpoint digits_aux (radix : N) (fuel : nat) (n : N) (acc : string) : string :=
  match fuel with
  | O => acc
  | S k =>
      let acc' := String (digit_char (n mod radix)) acc in
      if (n / radix =? 0)%N then acc' else digits_aux radix k (n / radix) acc'
  end.

Definition N_toString (radix : N) (n : N) : string :=
  digits_aux radix (S (N.to_nat (N.log2 n))) n "".

(** [x.toString(radix)] of an integer [x]. *)
Definition Number_toString (radix : N) (x : Z) : string :=
  if (x <? 0)%Z then "-" ++ N_toString radix (Z.abs_N x)
  else N_toString radix (Z.to_N x).

(** The conversion ["S" + x] applies to the number [x].  For the safe
    integers it is the decimal numeral.  Beyond them the runtime prints
    the shortest digits that read back as the same double, and from
    [10^21] on it switches to exponent notation ([1e+21]); the model does
    not compute that rendering and takes it as [large]. *)
Definition MAX_SAFE_INTEGER : Z := 9007199254740991.

Definition ToString (large : Z -> string) (x : Z) : string :=
  if (Z.abs x <=? MAX_SAFE_INTEGER)%Z then Number_toString 10 x else large x.

(** *** String to number *)

(** The white space [Number] strips, among the code units below 256:
    TAB, LF, VT, FF, CR, SP and NBSP. *)
Definition isWhiteSpace (c : ascii) : bool :=
  let n := charCode c in
  (((9 <=? n) && (n <=? 13)) || (n =? 32) || (n =? 160))%N.

Fixpoint trimStart (s : string) : string :=
  match s with
  | EmptyString => EmptyString
  | String c s' => if isWhiteSpace c then trimStart s' else s
  end.

Fixpoint trimEnd (s : string) : string :=
  match s with
  | EmptyString => EmptyString
  | String c s' =>
      match trimEnd s' with
      | EmptyString => if isWhiteSpace c then EmptyString else String c EmptyString
      | t => String c t
      end
  end.

Definition trim (s : string) : string := trimEnd (trimStart s).

Definition hex_value (c : ascii) : option N :=
  let n := charCode c in
  if ((48 <=? n) && (n <=? 57))%N then Some (n - 48)%N
  else if ((65 <=? n) && (n <=? 70))%N then Some (n - 55)%N
  else if ((97 <=? n) && (n <=? 102))%N then Some (n - 87)%N
  else None.

Definition dec_value (c : ascii) : option N :=
  let n := charCode c in
  if ((48 <=? n) && (n <=? 57))%N then Some (n - 48)%N else None.

(** The value of a run of digits read left to right, [None] when a
    character is not a digit. *)
Fixpoint digits_literal (radix : N) (value : ascii -> option N)
         (s : string) (acc : N) : option N :=
  match s with
  | EmptyString => Some acc
  | String c s' =>
      match value c with
      | Some d => digits_literal radix value s' (radix * acc + d)%N
      | None => None
      end
  end.

Definition hex_literal : string -> N -> option N := digits_literal 16 hex_value.
Definition dec_literal : string -> N -> option N := digits_literal 10 dec_value.

(** [Number(s)], with [None] for [NaN].  White space is stripped at both
    ends; the empty string is [0]; [0x] or [0X] starts a hexadecimal
    literal, which needs a digit; a run of decimal digits is its value.
    This is the whole of the conversion on the strings the codec
    converts: a string of at most one code unit, and ["0x"] followed by at
    most eight code units.  (Signs, fractions, exponents, [Infinity] and
    the binary and octal prefixes need more characters than that.) *)
Definition Number (s : string) : option Z :=
  match trim s with
  | EmptyString => Some 0%Z
  | String "0"%char (String x digits) =>
      if (Ascii.eqb x "x" || Ascii.eqb x "X")%bool then
        match digits with
        | EmptyString => None
        | _ => option_map Z.of_N (hex_literal digits 0)
        end
      else option_map Z.of_N (dec_literal (trim s) 0)
  | t => option_map Z.of_N (dec_literal t 0)
  end.

(* ================================================================== *)
(** ** The frame object *)
(* ================================================================== *)

(** The properties of a [canbus.frame].  [id_ext_id] is the property that
    [_parseFrame] assigns; [None] is [undefined] (also: never assigned). *)
Record frame : Type := mkFrame {
  id : Z;
  is_ext_id : option bool;
  is_remote : option bool;
  dlc : Z;
  data : list Z;
  timestamp : option Z;
  id_ext_id : option bool
}.

(** Modelled from the spec: the constructor [frame(id)] of [./frame],
    which is not among the sources.  "Construct with a numeric identifier
    (defaults: standard, data frame, dlc computed from data at pack
    time)"; [timestamp] is "absent/unset on frames constructed for
    sending". *)
Definition new_frame (id0 : Z) : frame :=
  {| id := id0;
     is_ext_id := Some false;
     is_remote := Some false;
     dlc := 0%Z;
     data := [];
     timestamp := None;
     id_ext_id := None |}.

Definition set_id_ext_id (f : frame) (v : option bool) : frame :=
  {| id := id f; is_ext_id := is_ext_id f; is_remote := is_remote f;
     dlc := dlc f; data := data f; timestamp := timestamp f;
     id_ext_id := v |}.

Definition set_is_remote (f : frame) (v : option bool) : frame :=
  {| id := id f; is_ext_id := is_ext_id f; is_remote := v;
     dlc := dlc f; data := data f; timestamp := timestamp f;
     id_ext_id := id_ext_id f |}.

Definition set_dlc (f : frame) (v : Z) : frame :=
  {| id := id f; is_ext_id := is_ext_id f; is_remote := is_remote f;
     dlc := v; data := data f; timestamp := timestamp f;
     id_ext_id := id_ext_id f |}.

Definition set_data (f : frame) (v : list Z) : frame :=
  {| id := id f; is_ext_id := is_ext_id f; is_remote := is_remote f;
     dlc := dlc f; data := v; timestamp := timestamp f;
     id_ext_id := id_ext_id f |}.

Definition set_timestamp (f : frame) (v : Z) : frame :=
  {| id := id f; is_ext_id := is_ext_id f; is_remote := is_remote f;
     dlc := dlc f; data := data f; timestamp := Some v;
     id_ext_id := id_ext_id f |}.

(* ================================================================== *)
(** ** The slcan object *)
(* ================================================================== *)

Definition CMD_OPEN_BUS : string := "O" ++ CR.

Definition STD_ID_LEN : nat := 3.
Definition EXT_ID_LEN : nat := 8.

(** The handle [new SerialPort(dev_str)] returns. *)
Record SerialPort : Type := { path : string }.

(** A function of the application, held by reference.  What it does when
    it is called is the application's code: the method that calls it
    takes that code as [app]. *)
Definition callback : Type := nat.

(** The fields the constructor sets.  [_conn] and [_lastCMD] start as
    [null] ([None]). *)
Record slcan : Type := mkSlcan {
  _dev_str : string;
  _speed : Z;
  _conn : option SerialPort;
  _recv_count : Z;
  _recv_str : string;
  _lastCMD : option string;
  recvFrameCallback : callback
}.

Definition new_slcan (dev_str : string) (speed : Z)
           (recvFrameCallback0 : callback) : slcan :=
  {| _dev_str := dev_str; _speed := speed; _conn := None;
     _recv_count := 0%Z; _recv_str := ""; _lastCMD := None;
     recvFrameCallback := recvFrameCallback0 |}.

Definition set_conn (this : slcan) (c : option SerialPort) : slcan :=
  {| _dev_str := _dev_str this; _speed := _speed this; _conn := c;
     _recv_count := _recv_count this; _recv_str := _recv_str this;
     _lastCMD := _lastCMD this; recvFrameCallback := recvFrameCallback this |}.

Definition set_lastCMD (this : slcan) (c : option string) : slcan :=
  {| _dev_str := _dev_str this; _speed := _speed this; _conn := _conn this;
     _recv_count := _recv_count this; _recv_str := _recv_str this;
     _lastCMD := c; recvFrameCallback := recvFrameCallback this |}.

(** [this._lastCMD == CMD_OPEN_BUS]: [null] equals no string. *)
Definition loose_eq (v : option string) (s : string) : bool :=
  match v with
  | Some t => String.eqb t s
  | None => false
  end.

(* ------------------------------------------------------------------ *)
(** *** _parseFrame *)

(** The loop that renders every character code into [debugStr]. *)
Fixpoint char_codes (rest : string) (debugStr : string) : string :=
  match rest with
  | EmptyString => debugStr
  | String c rest' =>
      char_codes rest'
        (debugStr ++ "[" ++ Number_toString 10 (Z.of_N (charCode c)) ++ "]")
  end.

Definition bad_frame_type_message (str : string) : string :=
  let debugStr := char_codes str ("-> ascii: '" ++ str ++ "'   char_codes: ") in
  "Invalid slcand frame! (bad frame type char) " ++ debugStr ++ CR ++ LF.

(** The [if] chain on [str[0]]: the values of [is_ext_id] and [is_remote]
    it leaves.  On the empty string [str[0]] is [undefined]: the four
    comparisons are false and [str[0].charCodeAt] raises a [TypeError].
    In the BEL branch nothing is assigned unless the [throw] is taken. *)
Definition frame_type (this : slcan) (str : string)
  : result (option bool * option bool) :=
  match get 0 str with
  | None => throw VTypeError
  | Some c =>
      if Ascii.eqb c "t" then ret (Some false, Some false)
      else if Ascii.eqb c "r" then ret (Some false, Some true)
      else if Ascii.eqb c "T" then ret (Some true, Some false)
      else if Ascii.eqb c "R" then ret (Some true, Some true)
      else if (charCode c =? 7)%N then
        if loose_eq (_lastCMD this) CMD_OPEN_BUS
        then throw (VString "Open Failed! (Bus already open?)")
        else ret (None, None)
      else throw (VString (bad_frame_type_message str))
  end.

Definition id_len (is_ext : option bool) : nat :=
  if truthy is_ext then EXT_ID_LEN else STD_ID_LEN.

(** The [for] loop over the data bytes: [n] iterations are left, [i] is
    the loop variable. *)
Fixpoint read_data (str : string) (is_ext : option bool) (n i : nat)
         (data0 : list Z) : result (list Z) :=
  match n with
  | O => ret data0
  | S n' =>
      let pos := if truthy is_ext then 2 + EXT_ID_LEN + i * 2
                 else 2 + STD_ID_LEN + i * 2 in
      match Number ("0x" ++ substr str pos 2) with
      | None =>
          throw (VString ("Invalid data byte at position "
                            ++ Number_toString 10 (Z.of_nat i)))
      | Some b => read_data str is_ext n' (S i) (data0 ++ [b])
      end
  end.

Definition _parseFrame (this : slcan) (str : string) : result frame :=
  ty <- frame_type this str ;;
  let '(is_ext, is_rem) := ty in
  let id_s := if truthy is_ext then substr str 1 EXT_ID_LEN
              else substr str 1 STD_ID_LEN in
  match Number ("0x" ++ id_s) with
  | None => throw (VString "Invalid ID value")
  | Some id0 =>
      let dlc_s := if truthy is_ext then substr str (1 + EXT_ID_LEN) 1
                   else substr str (1 + STD_ID_LEN) 1 in
      match Number dlc_s with
      | None => throw (VString "Invalid DLC value")
      | Some dlc0 =>
          if ((dlc0 <? 0) || (dlc0 >? 8))%Z
          then throw (VString "Invalid DLC value")
          else
            data0 <- read_data str is_ext (Z.to_nat dlc0) 0 [] ;;
            let res := new_frame id0 in
            let res := set_id_ext_id res is_ext in
            let res := set_is_remote res is_rem in
            let res := set_dlc res dlc0 in
            let res := set_data res data0 in
            ret res
      end
  end.

(* ------------------------------------------------------------------ *)
(** *** _packFrame *)

Definition type_char (f : frame) : string :=
  let res := if truthy (is_remote f) then "r" else "t" in
  if truthy (is_ext_id f) then toUpperCase res else res.

Definition id_field (f : frame) : string :=
  let id_str := "0000000" ++ Number_toString 16 (id f) in
  if truthy (is_ext_id f)
  then toUpperCase (substr_from id_str (String.length id_str - EXT_ID_LEN))
  else toUpperCase (substr_from id_str (String.length id_str - STD_ID_LEN)).

(** The body of the data loop for the byte [b = frame.data[i]]. *)
Definition byte_field (b : Z) : string :=
  let byte_str := "0" ++ toUpperCase (Number_toString 16 b) in
  substr_from byte_str (String.length byte_str - 2).

(** The [for] loop over [frame.data]: [n] iterations are left, [i] is the
    loop variable.  Reading past the end of the array gives [undefined],
    whose [toString] raises a [TypeError]. *)
Fixpoint pack_data (data0 : list Z) (n i : nat) (res : string) : result string :=
  match n with
  | O => ret res
  | S n' =>
      match nth_error data0 i with
      | None => throw VTypeError
      | Some b => pack_data data0 n' (S i) (res ++ byte_field b)
      end
  end.

(** The frame is an object the caller shares: the function returns it as
    it is after the call, next to the string. *)
Definition _packFrame (f : frame) : result (frame * string) :=
  let res := type_char f in
  let res := res ++ id_field f in
  let f := set_dlc f (if (Z.of_nat (List.length (data f)) >? 8)%Z then 8%Z
                      else Z.of_nat (List.length (data f))) in
  let res := res ++ Number_toString 10 (dlc f) in
  res <- pack_data (data f) (Z.to_nat (dlc f)) 0 res ;;
  ret (f, res ++ CR).

(* ------------------------------------------------------------------ *)
(** *** The session: what the object does to the outside *)

Inductive event : Type :=
| ConsoleLog (v : jsvalue)
| PortFlush
| PortWrite (str : string)
| AppCallback (f : frame).

(** The object and the effects so far, oldest first. *)
Record world : Type := { self : slcan; trace : list event }.

(** A method: it may throw, and the state it leaves is kept either way. *)
Definition M (A : Type) : Type := world -> result A * world.

Definition mret {A : Type} (a : A) : M A := fun w => (inr a, w).
Definition mthrow {A : Type} (v : jsvalue) : M A := fun w => (inl v, w).
Definition mbind {A B : Type} (m : M A) (k : A -> M B) : M B :=
  fun w => match m w with
           | (inl v, w') => (inl v, w')
           | (inr a, w') => k a w'
           end.
Definition emit (e : event) : M unit :=
  fun w => (inr tt, {| self := self w; trace := trace w ++ [e] |}).
Definition modify (g : slcan -> slcan) : M unit :=
  fun w => (inr tt, {| self := g (self w); trace := trace w |}).
Definition read {A : Type} (g : slcan -> A) : M A :=
  fun w => (inr (g (self w)), w).
Definition lift {A : Type} (r : result A) : M A := fun w => (r, w).

Notation "x <~ m ;; k" := (mbind m (fun x => k))
  (at level 61, m at next level, right associativity).
Notation "m ;;; k" := (mbind m (fun _ => k))
  (at level 61, right associativity).

(** A method of [this._conn]: a [TypeError] when the handle is [null]. *)
Definition on_conn (e : event) : M unit :=
  c <~ read _conn ;;
  match c with
  | None => mthrow VTypeError
  | Some _ => emit e
  end.

(** [open] takes the handle.  The line reader and the two handlers it
    registers are the transport's side: the transport's events are the
    calls of [_serialOpenCallback] and [_serialRecvCallback]. *)
Definition open : M unit :=
  dev <~ read _dev_str ;;
  modify (fun this => set_conn this (Some {| path := dev |})).

Definition _serialWrite (str : string) : M unit :=
  modify (fun this => set_lastCMD this (Some str)) ;;;
  on_conn (PortWrite str).

(** [send]: the frame is returned as the call leaves it. *)
Definition send (f : frame) : M frame :=
  c <~ read _conn ;;
  match c with
  | None => mthrow (VString "Not connected to serial device")
  | Some _ =>
      p <~ lift (_packFrame f) ;;
      _serialWrite (snd p) ;;;
      mret (fst p)
  end.

(** [large] is the runtime's rendering of a speed beyond the safe
    integers, see [ToString]. *)
Definition _serialOpenCallback (large : Z -> string) : M unit :=
  dev <~ read _dev_str ;;
  emit (ConsoleLog (VString ("connected to device " ++ dev))) ;;;
  on_conn PortFlush ;;;
  speed <~ read _speed ;;
  _serialWrite ("S" ++ ToString large speed ++ CR) ;;;
  _serialWrite ("O" ++ CR).

(** The [try] block: parse, stamp the time [now = Date.now()], call the
    application's function as a method of the session.  That function is
    any code of the application: [app] gives, for the function held in
    [recvFrameCallback] and the frame it is called with, what the call
    does to the session and to the outside ([send], writes, assignments)
    and whether it returns or throws.  The event [AppCallback] marks the
    call itself.  Whatever is thrown inside the block, by the parser or
    by the application, is caught and logged. *)
Definition _serialRecvCallback (app : callback -> frame -> M unit)
           (data0 : string) (now : Z) : M unit :=
  fun w =>
    let body : M unit :=
      f <~ (fun w' => (_parseFrame (self w') data0, w')) ;;
      let f := set_timestamp f now in
      cb <~ read recvFrameCallback ;;
      emit (AppCallback f) ;;;
      app cb f in
    match body w with
    | (inr _, w') => (inr tt, w')
    | (inl err, w') => emit (ConsoleLog err) w'
    end.

(* ================================================================== *)
(** ** Vocabulary of the statements *)
(* ================================================================== *)

(** A run of [j] zeros, as the padding of a field. *)
Fixpoint zeros (j : nat) : string :=
  match j with
  | O => ""
  | S j' => String "0" (zeros j')
  end.

(** Every character of [s] satisfies [p]. *)
Fixpoint all_chars (p : ascii -> bool) (s : string) : bool :=
  match s with
  | EmptyString => true
  | String c s' => p c && all_chars p s'
  end.

(** The data fields of a line, one [byte_field] for each byte. *)
Fixpoint byte_fields (l : list Z) : string :=
  match l with
  | [] => ""
  | b :: l' => byte_field b ++ byte_fields l'
  end.

(** The number of data bytes [_packFrame] writes: [min(len(data), 8)]. *)
Definition packed_dlc (f : frame) : nat := Nat.min (List.length (data f)) 8.

(** The type letter of a line: upper case for an extended identifier,
    [r] for a remote frame. *)
Definition type_letter (ext remote : bool) : ascii :=
  match ext, remote with
  | false, false => "t"
  | false, true => "r"
  | true, false => "T"
  | true, true => "R"
  end%char.

(** A byte, as the data of a frame holds them. *)
Definition is_byte (b : Z) : Prop := (0 <= b <= 255)%Z.

(** What [_parseFrame] builds from the fields it has read. *)
Definition parsed (id0 : Z) (is_ext is_rem : option bool) (dlc0 : Z)
           (data0 : list Z) : frame :=
  set_data (set_dlc (set_is_remote (set_id_ext_id (new_frame id0) is_ext)
                                   is_rem) dlc0) data0.

(** The errors of the specification's taxonomy, as the values the code
    throws. *)
Definition TransportNotReady : jsvalue :=
  VString "Not connected to serial device".
Definition AdapterOpenFailed : jsvalue :=
  VString "Open Failed! (Bus already open?)".
Definition MalformedFrameType (str : string) : jsvalue :=
  VString (bad_frame_type_message str).
Definition MalformedIdentifier : jsvalue := VString "Invalid ID value".
Definition MalformedDLC : jsvalue := VString "Invalid DLC value".
Definition MalformedDataByte (i : nat) : jsvalue :=
  VString ("Invalid data byte at position " ++ Number_toString 10 (Z.of_nat i)).

(** The parse errors that the taxonomy enumerates. *)
Definition parse_error (v : jsvalue) : Prop :=
  v = AdapterOpenFailed \/ (exists str, v = MalformedFrameType str) \/
  v = MalformedIdentifier \/ v = MalformedDLC \/
  exists i, v = MalformedDataByte i.

(** A line that starts with one of the four type letters. *)
Definition is_frame_line (str : string) : bool :=
  match get 0 str with
  | Some c => (Ascii.eqb c "t" || Ascii.eqb c "r"
               || Ascii.eqb c "T" || Ascii.eqb c "R")%bool
  | None => false
  end.

(** The width of the identifier field that the leading letter announces,
    and the width of all the fields of a line that parsed to [f]. *)
Definition id_width (str : string) : nat :=
  match get 0 str with
  | Some c =>
      if (Ascii.eqb c "T" || Ascii.eqb c "R")%bool then EXT_ID_LEN
      else STD_ID_LEN
  | None => STD_ID_LEN
  end.

Definition fields_width (str : string) (f : frame) : nat :=
  2 + id_width str + 2 * Z.to_nat (dlc f).

(** The frame of the repository's example, and an extended frame. *)
Definition std_frame_example : frame :=
  set_data (new_frame 0x81) [50; 0; 133; 0x64; 0x11; 0x3; 0x00; 0x00]%Z.

Definition ext_frame_example : frame :=
  {| id := 1; is_ext_id := Some true; is_remote := Some false;
     dlc := 0; data := [0; 0; 0; 0; 0; 0; 0; 0]%Z;
     timestamp := None; id_ext_id := None |}.

(** The reference to the example's callback, and the session the example
    constructs, not opened yet. *)
Definition parseCanPacket : callback := 0.

Definition closed_session : slcan :=
  new_slcan "/dev/cu.usbmodem1431" 5 parseCanPacket.

(** The same session once [open] has been called. *)
Definition opened_world : world :=
  snd (open {| self := closed_session; trace := [] |}).

(** The frames the application's callback was invoked with, in order. *)
Fixpoint callbacks (tr : list event) : list frame :=
  match tr with
  | [] => []
  | AppCallback f :: tr' => f :: callbacks tr'
  | _ :: tr' => callbacks tr'
  end.

(** The strings written to the transport, in order. *)
Fixpoint writes (tr : list event) : list string :=
  match tr with
  | [] => []
  | PortWrite str :: tr' => str :: writes tr'
  | _ :: tr' => writes tr'
  end.

(** Every value of the frame fits the field [_packFrame] writes it to:
    both flags are set, the identifier has at most 3 (standard) or 8
    (extended) hexadecimal digits, and there are at most 8 data values,
    each a byte. *)
Definition fits (f : frame) : Prop :=
  exists ext remote,
    is_ext_id f = Some ext /\ is_remote f = Some remote /\
    (0 <= id f < 16 ^ Z.of_nat (id_len (Some ext)))%Z /\
    List.length (data f) <= 8 /\ Forall is_byte (data f).






Definition echo_app (cb : callback) (f : frame) : M unit :=
  send f ;;; mret tt.

(** The decimal numeral of a character code, written out digit by digit,
    and the dump of the codes of a line: [[c1][c2]...]. *)
Definition decimal_code (c : ascii) : string :=
  let n := charCode c in
  let digit (d : N) := String (ascii_of_N (48 + d)) "" in
  (if (n <? 100)%N then "" else digit (n / 100)%N)
    ++ (if (n <? 10)%N then "" else digit ((n / 10) mod 10)%N)
    ++ digit (n mod 10)%N.

Fixpoint code_dump (s : string) : string :=
  match s with
  | EmptyString => EmptyString
  | String c s' => "[" ++ decimal_code c ++ "]" ++ code_dump s'
  end.

(** The hexadecimal digits [A] to [F] in lower case, every other
    character as it is. *)
Definition lower_hex_char (c : ascii) : ascii :=
  let n := charCode c in
  if ((65 <=? n) && (n <=? 70))%N then ascii_of_N (n + 32) else c.

Fixpoint lower_hex (s : string) : string :=
  match s with
  | EmptyString => EmptyString
  | String c s' => String (lower_hex_char c) (lower_hex s')
  end.

(* ================================================================== *)
(** ** Strings: append, length and substring *)
(* ================================================================== *)

Section StringFacts.

Lemma append_nil_r (s : string) : s ++ "" = s.
Proof. induction s as [|c s IH]; simpl; [reflexivity | now rewrite IH]. Qed.

Lemma append_assoc (a b c : string) : (a ++ b) ++ c = a ++ (b ++ c).
Proof. induction a as [|x a IH]; simpl; [reflexivity | now rewrite IH]. Qed.

Lemma length_append (a b : string) :
  String.length (a ++ b) = String.length a + String.length b.
Proof. induction a as [|x a IH]; simpl; [reflexivity | now rewrite IH]. Qed.

Lemma substring_0_0 (s : string) : substring 0 0 s = "".
Proof. destruct s; reflexivity. Qed.

Lemma substring_whole (s : string) : substring 0 (String.length s) s = s.
Proof. induction s as [|c s IH]; simpl; [reflexivity | now rewrite IH]. Qed.

Lemma substring_nil (n m : nat) : substring n m "" = "".
Proof. destruct n, m; reflexivity. Qed.

(** Skipping a whole prefix. *)
Lemma substring_skip (a b : string) (n m : nat) :
  substring (String.length a + n) m (a ++ b) = substring n m b.
Proof. induction a as [|x a IH]; simpl; [reflexivity | exact IH]. Qed.

Lemma substring_skip0 (a b : string) (m : nat) :
  substring (String.length a) m (a ++ b) = substring 0 m b.
Proof. rewrite <- (substring_skip a b 0 m). now rewrite Nat.add_0_r. Qed.

(** A slice that ends inside [a] does not see what follows [a]. *)
Lemma substring_within (a b : string) :
  forall n m, n + m <= String.length a ->
              substring n m (a ++ b) = substring n m a.
Proof.
  induction a as [|x a IH]; intros n m H; simpl in *.
  - assert (n = 0) by lia. assert (m = 0) by lia. subst.
    now rewrite substring_0_0.
  - destruct n as [|n].
    + destruct m as [|m]; [reflexivity|].
      f_equal. apply IH. lia.
    + apply IH. lia.
Qed.

Lemma substring_prefix (a b : string) :
  substring 0 (String.length a) (a ++ b) = a.
Proof.
  rewrite substring_within by lia. apply substring_whole.
Qed.

Lemma length_substring (s : string) :
  forall n m, String.length (substring n m s) = Nat.min m (String.length s - n).
Proof.
  induction s as [|c s IH]; intros n m.
  - rewrite substring_nil. simpl. now rewrite Nat.min_0_r.
  - destruct n as [|n]; simpl.
    + destruct m as [|m]; simpl; [reflexivity|].
      rewrite IH. now rewrite Nat.sub_0_r.
    + apply IH.
Qed.

(** [substr_from] of a string cut at the cutting point. *)
Lemma substr_from_append (a b : string) :
  substr_from (a ++ b) (String.length a) = b.
Proof.
  unfold substr_from. rewrite length_append.
  replace (String.length a + String.length b - String.length a)
    with (String.length b) by lia.
  rewrite substring_skip0. apply substring_whole.
Qed.

Lemma length_substr_from (s : string) (k : nat) :
  k <= String.length s ->
  String.length (substr_from s (String.length s - k)) = k.
Proof.
  intros H. unfold substr_from. rewrite length_substring. lia.
Qed.

Lemma length_toUpperCase (s : string) :
  String.length (toUpperCase s) = String.length s.
Proof. induction s as [|c s IH]; simpl; [reflexivity | now rewrite IH]. Qed.

Lemma toUpperCase_append (a b : string) :
  toUpperCase (a ++ b) = toUpperCase a ++ toUpperCase b.
Proof. induction a as [|x a IH]; simpl; [reflexivity | now rewrite IH]. Qed.

End StringFacts.

(* ================================================================== *)
(** ** Numbers and their renderings *)
(* ================================================================== *)

Section Digits.

Variable radix : N.
Variable value : ascii -> option N.

Lemma digits_literal_append (a b : string) :
  forall acc,
    digits_literal radix value (a ++ b) acc =
    match digits_literal radix value a acc with
    | Some v => digits_literal radix value b v
    | None => None
    end.
Proof.
  induction a as [|c a IH]; intros acc; simpl; [reflexivity|].
  destruct (value c); [apply IH | reflexivity].
Qed.

Lemma digits_aux_step (fuel : nat) (n : N) (acc : string) :
  digits_aux radix (S fuel) n acc =
  if (n / radix =? 0)%N then String (digit_char (n mod radix)) acc
  else digits_aux radix fuel (n / radix) (String (digit_char (n mod radix)) acc).
Proof. reflexivity. Qed.

(** The accumulator of [digits_aux] is only ever extended in front. *)
Lemma digits_aux_acc (fuel : nat) :
  forall n acc, digits_aux radix fuel n acc = digits_aux radix fuel n "" ++ acc.
Proof.
  induction fuel as [|fuel IH]; intros n acc; simpl; [reflexivity|].
  destruct (n / radix =? 0)%N; [reflexivity|].
  rewrite IH. rewrite (IH _ (String _ "")).
  now rewrite append_assoc.
Qed.

Lemma digits_aux_nonempty (fuel : nat) (n : N) (acc : string) :
  1 <= String.length (digits_aux radix (S fuel) n acc).
Proof.
  simpl. destruct (n / radix =? 0)%N; simpl; [lia|].
  rewrite digits_aux_acc, length_append. simpl. lia.
Qed.

End Digits.

Lemma N_toString_nonempty (radix n : N) :
  1 <= String.length (N_toString radix n).
Proof. apply digits_aux_nonempty. Qed.

Lemma Number_toString_nonempty (radix : N) (x : Z) :
  1 <= String.length (Number_toString radix x).
Proof.
  unfold Number_toString. destruct (x <? 0)%Z.
  - simpl. lia.
  - apply N_toString_nonempty.
Qed.

Lemma small_cases (d : N) :
  (d < 16)%N ->
  In d [0; 1; 2; 3; 4; 5; 6; 7; 8; 9; 10; 11; 12; 13; 14; 15]%N.
Proof.
  intros H. simpl.
  destruct d as [|p]; [auto|].
  do 4 (destruct p as [p|p|]; try lia); auto 20.
Qed.

(** A digit below sixteen, printed and upper-cased, reads back. *)
Lemma hex_value_digit_char (d : N) :
  (d < 16)%N -> hex_value (upper_char (digit_char d)) = Some d.
Proof.
  intros H. apply small_cases in H. simpl in H.
  repeat (destruct H as [<- | H]; [reflexivity|]). contradiction.
Qed.

Lemma hex_value_not_space (c : ascii) (d : N) :
  hex_value c = Some d -> isWhiteSpace c = false.
Proof.
  destruct c as [[] [] [] [] [] [] [] []]; vm_compute; congruence.
Qed.

(** The hexadecimal rendering of [n], upper-cased, has at most [k] digits
    when [n < 16^k], and reads back as [n]. *)
Lemma hex_digits_spec (fuel : nat) :
  forall (n : N) (k : nat),
    (n < 16 ^ N.of_nat (S fuel))%N -> (n < 16 ^ N.of_nat k)%N -> 1 <= k ->
    let s := digits_aux 16 (S fuel) n "" in
    1 <= String.length s <= k /\
    forall v, hex_literal (toUpperCase s) v
              = Some (v * 16 ^ N.of_nat (String.length s) + n)%N.
Proof.
  induction fuel as [|fuel IH]; intros n k Hf Hk Hk1; cbv zeta.
  - assert (Hn : (n < 16)%N) by (simpl in Hf; lia).
    assert (Hq : (n / 16 = 0)%N) by (apply N.div_small; lia).
    rewrite digits_aux_step, Hq. cbn [N.eqb].
    rewrite N.mod_small by lia. split; [simpl; lia|].
    intros v. unfold hex_literal. cbn [toUpperCase digits_literal].
    rewrite hex_value_digit_char by lia. cbn [String.length].
    f_equal. change (16 ^ N.of_nat 1)%N with 16%N. lia.
  - rewrite digits_aux_step.
    pose proof (N.div_mod' n 16) as Hdm.
    assert (Hr : (n mod 16 < 16)%N) by (apply N.mod_lt; lia).
    destruct (N.eqb_spec (n / 16) 0) as [Hq|Hq].
    + split; [simpl; lia|].
      intros v. unfold hex_literal. cbn [toUpperCase digits_literal].
      rewrite hex_value_digit_char by lia. cbn [String.length].
      f_equal. change (16 ^ N.of_nat 1)%N with 16%N. lia.
    + rewrite digits_aux_acc.
      assert (Hk2 : 2 <= k).
      { destruct k as [|[|k]]; [lia| |lia].
        change (16 ^ N.of_nat 1)%N with 16%N in Hk.
        assert (n / 16 = 0)%N by (apply N.div_small; lia). lia. }
      assert (Hq1 : (n / 16 < 16 ^ N.of_nat (S fuel))%N).
      { apply N.Div0.div_lt_upper_bound.
        rewrite <- N.pow_succ_r'. now rewrite <- Nat2N.inj_succ. }
      assert (Hq2 : (n / 16 < 16 ^ N.of_nat (k - 1))%N).
      { apply N.Div0.div_lt_upper_bound.
        rewrite <- N.pow_succ_r'. rewrite <- Nat2N.inj_succ.
        now replace (S (k - 1)) with k by lia. }
      destruct (IH (n / 16)%N (k - 1) Hq1 Hq2 ltac:(lia)) as [Hlen Hval].
      cbv zeta in Hlen, Hval.
      set (s' := digits_aux 16 (S fuel) (n / 16) "") in *.
      rewrite length_append. cbn [String.length]. split; [lia|].
      intros v. rewrite toUpperCase_append. unfold hex_literal in *.
      rewrite digits_literal_append, Hval.
      cbn [toUpperCase digits_literal].
      rewrite hex_value_digit_char by lia. f_equal.
      replace (String.length s' + 1) with (S (String.length s')) by lia.
      rewrite Nat2N.inj_succ, N.pow_succ_r'. lia.
Qed.

Lemma log2_fuel (n : N) : (n < 16 ^ N.of_nat (S (N.to_nat (N.log2 n))))%N.
Proof.
  rewrite Nat2N.inj_succ, N2Nat.id.
  apply N.lt_le_trans with (2 ^ N.succ (N.log2 n))%N.
  - destruct n as [|p]; [reflexivity|].
    apply N.log2_spec. lia.
  - apply N.pow_le_mono_l. lia.
Qed.

Lemma N_toString16_spec (n : N) (k : nat) :
  (n < 16 ^ N.of_nat k)%N -> 1 <= k ->
  1 <= String.length (N_toString 16 n) <= k /\
  forall v, hex_literal (toUpperCase (N_toString 16 n)) v
            = Some (v * 16 ^ N.of_nat (String.length (N_toString 16 n)) + n)%N.
Proof.
  intros Hk Hk1. unfold N_toString.
  apply (hex_digits_spec _ n k (log2_fuel n) Hk Hk1).
Qed.


(** *** Zero padding and [Number] on what the codec writes *)

Lemma length_zeros (j : nat) : String.length (zeros j) = j.
Proof. induction j as [|j IH]; simpl; [reflexivity | now rewrite IH]. Qed.

Lemma zeros_add (a b : nat) : zeros (a + b) = zeros a ++ zeros b.
Proof. induction a as [|a IH]; simpl; [reflexivity | now rewrite IH]. Qed.

Lemma toUpperCase_zeros (j : nat) : toUpperCase (zeros j) = zeros j.
Proof. induction j as [|j IH]; simpl; [reflexivity | now rewrite IH]. Qed.

Lemma hex_literal_zeros (j : nat) (s : string) :
  hex_literal (zeros j ++ s) 0 = hex_literal s 0.
Proof. induction j as [|j IH]; simpl; [reflexivity | exact IH]. Qed.

(** The last [k] characters of a rendering padded with [j] zeros: the
    rendering itself with the zeros that are left of it. *)
Lemma padded_tail (j : nat) (s : string) (k : nat) :
  String.length s <= k <= j + String.length s ->
  substr_from (zeros j ++ s) (String.length (zeros j ++ s) - k)
  = zeros (k - String.length s) ++ s.
Proof.
  intros H.
  replace j with ((j - (k - String.length s)) + (k - String.length s)) at 1 2
    by lia.
  rewrite zeros_add, append_assoc.
  set (a := zeros (j - (k - String.length s))).
  set (b := zeros (k - String.length s) ++ s).
  replace (String.length (a ++ b) - k) with (String.length a).
  - apply substr_from_append.
  - rewrite length_append. subst a b.
    rewrite length_append, !length_zeros. lia.
Qed.

Lemma hex_literal_no_space (s : string) :
  forall acc v, hex_literal s acc = Some v ->
                all_chars (fun c => negb (isWhiteSpace c)) s = true.
Proof.
  unfold hex_literal.
  induction s as [|c s IH]; intros acc v H; simpl in *; [reflexivity|].
  destruct (hex_value c) as [d|] eqn:E; [|discriminate].
  rewrite (hex_value_not_space c d E). simpl. eauto.
Qed.

Lemma trimEnd_no_space (s : string) :
  all_chars (fun c => negb (isWhiteSpace c)) s = true -> trimEnd s = s.
Proof.
  induction s as [|c s IH]; simpl; [reflexivity|].
  intros H. apply andb_true_iff in H. destruct H as [Hc Hs].
  rewrite (IH Hs). apply negb_true_iff in Hc. rewrite Hc.
  destruct s; reflexivity.
Qed.

(** [Number("0x" + digits)] on a non-empty run of hexadecimal digits. *)
Lemma Number_hex (digits : string) (v : N) :
  digits <> "" -> hex_literal digits 0 = Some v ->
  Number ("0x" ++ digits) = Some (Z.of_N v).
Proof.
  intros Hne Hv. unfold Number, trim.
  change ("0x" ++ digits) with (String "0" (String "x" digits)).
  change (trimStart (String "0" (String "x" digits)))
    with (String "0" (String "x" digits)).
  rewrite trimEnd_no_space.
  - change (Ascii.eqb "x" "x" || Ascii.eqb "x" "X")%bool with true. cbv iota.
    rewrite Hv. destruct digits; [congruence | reflexivity].
  - change (all_chars (fun c => negb (isWhiteSpace c)) digits = true).
    apply (hex_literal_no_space digits 0%N v Hv).
Qed.

(** A number below [16^k] has at most [k] hexadecimal digits, and
    [Number] reads it back from its upper-cased rendering, whatever the
    zeros in front. *)
Lemma hex_render (x : Z) (k : nat) :
  (0 <= x < 16 ^ Z.of_nat k)%Z -> 1 <= k ->
  1 <= String.length (Number_toString 16 x) <= k /\
  forall m, Number ("0x" ++ zeros m ++ toUpperCase (Number_toString 16 x))
            = Some x.
Proof.
  intros Hx Hk. unfold Number_toString.
  destruct (Z.ltb_spec x 0) as [Hneg|_]; [lia|].
  assert (Hn : (Z.to_N x < 16 ^ N.of_nat k)%N).
  { apply N2Z.inj_lt. rewrite N2Z.inj_pow, Z2N.id by lia.
    now rewrite nat_N_Z. }
  destruct (N_toString16_spec (Z.to_N x) k Hn ltac:(lia)) as [Hlen Hval].
  set (s := N_toString 16 (Z.to_N x)) in *.
  split; [exact Hlen|]. intros m.
  replace (Some x) with (Some (Z.of_N (Z.to_N x)))
    by (f_equal; apply Z2N.id; lia).
  apply Number_hex.
  - destruct (zeros m); simpl; [|congruence].
    destruct s; simpl in *; [lia | congruence].
  - rewrite hex_literal_zeros, Hval. f_equal; lia.
Qed.

(** The DLC digit [_packFrame] writes is one character, and [Number]
    reads it back. *)
Lemma dlc_digit_roundtrip (d : nat) :
  d <= 8 ->
  String.length (Number_toString 10 (Z.of_nat d)) = 1 /\
  Number (Number_toString 10 (Z.of_nat d)) = Some (Z.of_nat d).
Proof.
  intros H.
  do 9 (destruct d as [|d]; [split; reflexivity|]). lia.
Qed.

(* ================================================================== *)
(** ** _packFrame *)
(* ================================================================== *)

Lemma length_byte_field (b : Z) : String.length (byte_field b) = 2.
Proof.
  unfold byte_field. apply length_substr_from.
  change (String.length ("0" ++ ?s)) with (S (String.length s)).
  rewrite length_toUpperCase.
  pose proof (Number_toString_nonempty 16 b). simpl. lia.
Qed.

Lemma length_byte_fields (l : list Z) :
  String.length (byte_fields l) = 2 * List.length l.
Proof.
  induction l as [|b l IH]; simpl; [reflexivity|].
  rewrite length_append, length_byte_field, IH. lia.
Qed.

Lemma length_type_char (f : frame) : String.length (type_char f) = 1.
Proof.
  unfold type_char.
  destruct (truthy (is_remote f)), (truthy (is_ext_id f)); reflexivity.
Qed.

Lemma length_id_field (f : frame) :
  String.length (id_field f) = id_len (is_ext_id f).
Proof.
  unfold id_field, id_len.
  pose proof (Number_toString_nonempty 16 (id f)) as H.
  destruct (truthy (is_ext_id f)); rewrite length_toUpperCase;
    apply length_substr_from; rewrite length_append;
    unfold EXT_ID_LEN, STD_ID_LEN; simpl; lia.
Qed.

Lemma nth_error_skipn {A : Type} (l : list A) :
  forall i, i < List.length l ->
            exists b, nth_error l i = Some b /\ skipn i l = b :: skipn (S i) l.
Proof.
  induction l as [|a l IH]; intros i H; simpl in H; [lia|].
  destruct i as [|i].
  - exists a. split; reflexivity.
  - destruct (IH i ltac:(lia)) as [b [Hb Hs]].
    exists b. split; [exact Hb | exact Hs].
Qed.

(** The data loop never reads past the end of the array, and what it
    appends are the fields of the bytes it passes over. *)
Lemma pack_data_spec (data0 : list Z) (n : nat) :
  forall i res,
    i + n <= List.length data0 ->
    pack_data data0 n i res
    = ret (res ++ byte_fields (firstn n (skipn i data0))).
Proof.
  induction n as [|n IH]; intros i res H.
  - simpl. now rewrite append_nil_r.
  - destruct (nth_error_skipn data0 i ltac:(lia)) as [b [Hb Hs]].
    cbn [pack_data]. rewrite Hb, IH by lia.
    rewrite Hs. cbn [firstn byte_fields].
    now rewrite append_assoc.
Qed.

Lemma dlc_assignment (f : frame) :
  (if (Z.of_nat (List.length (data f)) >? 8)%Z then 8%Z
   else Z.of_nat (List.length (data f))) = Z.of_nat (packed_dlc f).
Proof.
  unfold packed_dlc.
  destruct (Z.gtb_spec (Z.of_nat (List.length (data f))) 8); lia.
Qed.

(** [_packFrame] returns: the frame with its [dlc] recomputed, and the
    line, field after field. *)
Lemma _packFrame_spec (f : frame) :
  _packFrame f
  = ret (set_dlc f (Z.of_nat (packed_dlc f)),
         type_char f ++ id_field f
           ++ Number_toString 10 (Z.of_nat (packed_dlc f))
           ++ byte_fields (firstn (packed_dlc f) (data f)) ++ CR).
Proof.
  unfold _packFrame. rewrite dlc_assignment.
  cbn [dlc data set_dlc]. rewrite Nat2Z.id.
  rewrite pack_data_spec by (unfold packed_dlc; lia).
  cbn [bind ret skipn]. unfold ret. do 2 f_equal.
  now rewrite !append_assoc.
Qed.

Lemma length_packed_line (f : frame) :
  String.length (type_char f ++ id_field f
                   ++ Number_toString 10 (Z.of_nat (packed_dlc f))
                   ++ byte_fields (firstn (packed_dlc f) (data f)) ++ CR)
  = 1 + id_len (is_ext_id f) + 1 + 2 * packed_dlc f + 1.
Proof.
  rewrite !length_append, length_type_char, length_id_field,
    length_byte_fields.
  destruct (dlc_digit_roundtrip (packed_dlc f)) as [-> _];
    [unfold packed_dlc; lia|].
  rewrite length_firstn. unfold packed_dlc. simpl. lia.
Qed.

(** C6 -- Pack output bound: for every frame, whatever its identifier,
    flags and data, [_packFrame] returns a line of at most 27 characters
    that ends with the carriage return. *)
Theorem pack_output_bound (f : frame) :
  exists f' line,
    _packFrame f = inr (f', line) /\
    String.length line <= 27 /\
    exists body, line = body ++ CR.
Proof.
  eexists; eexists. split; [apply _packFrame_spec|]. split.
  - rewrite length_packed_line.
    assert (id_len (is_ext_id f) <= 8)
      by (unfold id_len, EXT_ID_LEN, STD_ID_LEN;
          destruct (truthy (is_ext_id f)); lia).
    unfold packed_dlc. lia.
  - eexists. rewrite <- !append_assoc. reflexivity.
Qed.


(* ================================================================== *)
(** ** _parseFrame on the lines _packFrame writes *)
(* ================================================================== *)

Lemma substring_prefix_len (a b : string) (n : nat) :
  String.length a = n -> substring 0 n (a ++ b) = a.
Proof. intros <-. apply substring_prefix. Qed.

Lemma id_field_roundtrip (f : frame) :
  (0 <= id f < 16 ^ Z.of_nat (id_len (is_ext_id f)))%Z ->
  Number ("0x" ++ id_field f) = Some (id f).
Proof.
  intros Hid.
  assert (Hk : 1 <= id_len (is_ext_id f) <= 8)
    by (unfold id_len, EXT_ID_LEN, STD_ID_LEN;
        destruct (truthy (is_ext_id f)); lia).
  destruct (hex_render (id f) _ Hid ltac:(lia)) as [Hlen Hnum].
  unfold id_field. change "0000000" with (zeros 7).
  replace (if truthy (is_ext_id f)
           then toUpperCase (substr_from (zeros 7 ++ Number_toString 16 (id f))
                  (String.length (zeros 7 ++ Number_toString 16 (id f))
                   - EXT_ID_LEN))
           else toUpperCase (substr_from (zeros 7 ++ Number_toString 16 (id f))
                  (String.length (zeros 7 ++ Number_toString 16 (id f))
                   - STD_ID_LEN)))
    with (toUpperCase (substr_from (zeros 7 ++ Number_toString 16 (id f))
            (String.length (zeros 7 ++ Number_toString 16 (id f))
             - id_len (is_ext_id f))))
    by (unfold id_len; destruct (truthy (is_ext_id f)); reflexivity).
  rewrite padded_tail by lia.
  rewrite toUpperCase_append, toUpperCase_zeros. apply Hnum.
Qed.

Lemma byte_field_roundtrip (b : Z) :
  is_byte b -> Number ("0x" ++ byte_field b) = Some b.
Proof.
  intros Hb. unfold is_byte in Hb.
  destruct (hex_render b 2 ltac:(simpl; lia) ltac:(lia)) as [Hlen Hnum].
  unfold byte_field. change "0" with (zeros 1).
  rewrite padded_tail by (rewrite length_toUpperCase; lia).
  apply Hnum.
Qed.

Lemma frame_type_letter (this : slcan) (ext remote : bool) (s : string) :
  frame_type this (String (type_letter ext remote) s)
  = ret (Some ext, Some remote).
Proof. destruct ext, remote; reflexivity. Qed.

Lemma type_char_letter (f : frame) (ext remote : bool) :
  is_ext_id f = Some ext -> is_remote f = Some remote ->
  type_char f = String (type_letter ext remote) "".
Proof.
  intros He Hr. unfold type_char. rewrite He, Hr.
  destruct ext, remote; reflexivity.
Qed.

(** The slices of [_parseFrame], with the width of the identifier. *)
Lemma id_slice (is_ext : option bool) (str : string) :
  (if truthy is_ext then substr str 1 EXT_ID_LEN else substr str 1 STD_ID_LEN)
  = substring 1 (id_len is_ext) str.
Proof. unfold id_len, substr. destruct (truthy is_ext); reflexivity. Qed.

Lemma dlc_slice (is_ext : option bool) (str : string) :
  (if truthy is_ext then substr str (1 + EXT_ID_LEN) 1
   else substr str (1 + STD_ID_LEN) 1)
  = substring (1 + id_len is_ext) 1 str.
Proof. unfold id_len, substr. destruct (truthy is_ext); reflexivity. Qed.

Lemma byte_pos (is_ext : option bool) (i : nat) :
  (if truthy is_ext then 2 + EXT_ID_LEN + i * 2 else 2 + STD_ID_LEN + i * 2)
  = 2 + id_len is_ext + 2 * i.
Proof. unfold id_len. destruct (truthy is_ext); lia. Qed.

Lemma read_data_step (str : string) (is_ext : option bool) (n i : nat)
      (data0 : list Z) :
  read_data str is_ext (S n) i data0 =
  match Number ("0x" ++ substring (2 + id_len is_ext + 2 * i) 2 str) with
  | None => throw (VString ("Invalid data byte at position "
                              ++ Number_toString 10 (Z.of_nat i)))
  | Some b => read_data str is_ext n (S i) (data0 ++ [b])
  end.
Proof. cbn [read_data]. rewrite byte_pos. reflexivity. Qed.

(** The data loop reads back the fields [_packFrame] wrote. *)
Lemma read_data_fields (is_ext : option bool) (rest : string) (bs : list Z) :
  forall (pre : string) (i : nat) (acc : list Z),
    String.length pre = 2 + id_len is_ext + 2 * i ->
    Forall is_byte bs ->
    read_data (pre ++ byte_fields bs ++ rest) is_ext (List.length bs) i acc
    = ret (acc ++ bs)%list.
Proof.
  induction bs as [|b bs IH]; intros pre i acc Hpre Hbs.
  - simpl. now rewrite app_nil_r.
  - inversion Hbs as [|? ? Hb Hbs']; subst.
    cbn [List.length byte_fields]. rewrite read_data_step.
    rewrite <- Hpre, append_assoc, substring_skip0.
    rewrite (substring_prefix_len _ _ 2 (length_byte_field b)).
    rewrite (byte_field_roundtrip b Hb).
    rewrite <- append_assoc.
    rewrite (IH (pre ++ byte_field b) (S i) (acc ++ [b])%list).
    + now rewrite <- app_assoc.
    + rewrite length_append, length_byte_field. lia.
    + exact Hbs'.
Qed.

(** [_parseFrame] on a line made of a type letter, an identifier field
    of the right width, the DLC digit and as many data fields. *)
Lemma _parseFrame_line (this : slcan) (ext remote : bool) (idf : string)
      (idv : Z) (bs : list Z) (rest : string) :
  String.length idf = id_len (Some ext) ->
  Number ("0x" ++ idf) = Some idv ->
  List.length bs <= 8 ->
  Forall is_byte bs ->
  _parseFrame this
    (String (type_letter ext remote) "" ++ idf
       ++ Number_toString 10 (Z.of_nat (List.length bs))
       ++ byte_fields bs ++ rest)
  = ret (parsed idv (Some ext) (Some remote) (Z.of_nat (List.length bs)) bs).
Proof.
  intros Hlen Hid Hn Hbs.
  destruct (dlc_digit_roundtrip (List.length bs) Hn) as [Hdl Hdn].
  set (D := Number_toString 10 (Z.of_nat (List.length bs))) in *.
  unfold _parseFrame.
  change (String (type_letter ext remote) "" ++ ?s)
    with (String (type_letter ext remote) s).
  rewrite frame_type_letter. cbn [bind ret].
  rewrite id_slice, dlc_slice.
  change (substring 1 ?k (String ?c ?s)) with (substring 0 k s).
  change (substring (1 + ?k) ?m (String ?c ?s)) with (substring k m s).
  rewrite (substring_prefix_len _ _ _ Hlen), Hid.
  rewrite <- Hlen at 1. rewrite substring_skip0.
  rewrite (substring_prefix_len _ _ 1 Hdl), Hdn.
  destruct (Z.ltb_spec (Z.of_nat (List.length bs)) 0) as [?|_]; [lia|].
  destruct (Z.gtb_spec (Z.of_nat (List.length bs)) 8) as [?|_]; [lia|].
  cbn [orb]. rewrite Nat2Z.id.
  replace (String (type_letter ext remote) (idf ++ D ++ byte_fields bs ++ rest))
    with (String (type_letter ext remote) (idf ++ D) ++ byte_fields bs ++ rest)
    by (simpl; now rewrite append_assoc).
  rewrite (read_data_fields (Some ext) rest bs _ 0 []).
  - reflexivity.
  - simpl. rewrite length_append, Hlen, Hdl. lia.
  - exact Hbs.
Qed.

(* ================================================================== *)
(** ** Round trips *)
(* ================================================================== *)

(** A frame within the widths of its fields, packed and parsed again:
    every field read from the line is the frame's.  The identifier kind
    that was read goes to the property [id_ext_id] of the result; its
    [is_ext_id] is the one the constructor gave it. *)
Lemma parse_pack (this : slcan) (f : frame) (ext remote : bool) (rest : string) :
  is_ext_id f = Some ext -> is_remote f = Some remote ->
  (0 <= id f < 16 ^ Z.of_nat (id_len (Some ext)))%Z ->
  List.length (data f) <= 8 ->
  Forall is_byte (data f) ->
  exists f' body,
    _packFrame f = inr (f', body ++ CR) /\
    _parseFrame this (body ++ rest)
    = inr (parsed (id f) (Some ext) (Some remote)
                  (Z.of_nat (List.length (data f))) (data f)).
Proof.
  intros He Hr Hid Hn Hbs.
  assert (Hd : packed_dlc f = List.length (data f))
    by (unfold packed_dlc; lia).
  exists (set_dlc f (Z.of_nat (packed_dlc f))).
  exists (type_char f ++ id_field f
            ++ Number_toString 10 (Z.of_nat (packed_dlc f))
            ++ byte_fields (firstn (packed_dlc f) (data f))).
  split.
  - rewrite _packFrame_spec. unfold ret. do 2 f_equal.
    now rewrite !append_assoc.
  - rewrite Hd, firstn_all, !append_assoc.
    rewrite (type_char_letter f ext remote He Hr).
    apply _parseFrame_line.
    + rewrite length_id_field. now rewrite He.
    + apply id_field_roundtrip. now rewrite He.
    + exact Hn.
    + exact Hbs.
Qed.

(** C4 -- Standard-identifier round trip: a data or remote frame with a
    standard identifier in [0, 0x7FF] and at most 8 bytes is packed into a
    line that parses back to a frame with the same [id], [is_ext_id],
    [is_remote] and [data], and with [dlc = len(data)]; the same holds for
    the line without its terminator. *)
Theorem std_roundtrip (this : slcan) (f : frame) (remote : bool) :
  is_ext_id f = Some false ->
  is_remote f = Some remote ->
  (0 <= id f <= 0x7FF)%Z ->
  List.length (data f) <= 8 ->
  Forall is_byte (data f) ->
  exists f' line g,
    _packFrame f = inr (f', line) /\
    _parseFrame this line = inr g /\
    (exists body, line = body ++ CR /\ _parseFrame this body = inr g) /\
    id g = id f /\
    is_ext_id g = is_ext_id f /\
    is_remote g = is_remote f /\
    dlc g = Z.of_nat (List.length (data f)) /\
    data g = data f.
Proof.
  intros He Hr Hid Hn Hbs.
  assert (Hid' : (0 <= id f < 16 ^ Z.of_nat (id_len (Some false)))%Z)
    by (change (16 ^ Z.of_nat (id_len (Some false)))%Z with 4096%Z; lia).
  destruct (parse_pack this f false remote CR He Hr Hid' Hn Hbs)
    as [f' [body [Hpack Hparse]]].
  destruct (parse_pack this f false remote "" He Hr Hid' Hn Hbs)
    as [f2 [body2 [Hpack2 Hparse2]]].
  rewrite Hpack in Hpack2. injection Hpack2 as _ Hb.
  assert (body2 = body).
  { clear - Hb. revert body2 Hb.
    induction body as [|c body IH]; intros [|c2 body2] Hb; simpl in Hb.
    - reflexivity.
    - injection Hb as _ Hb. destruct body2; discriminate.
    - injection Hb as _ Hb. destruct body; discriminate.
    - injection Hb as -> Hb. f_equal. now apply IH. }
  subst body2. rewrite append_nil_r in Hparse2.
  eexists; eexists; eexists.
  split; [exact Hpack|]. split; [exact Hparse|].
  split; [exists body; split; [reflexivity | exact Hparse2]|].
  cbn. rewrite He, Hr. repeat split; reflexivity.
Qed.

Lemma std_roundtrip_witness :
  exists f' line g,
    _packFrame std_frame_example = inr (f', line) /\
    _parseFrame closed_session line
    = inr g /\
    (exists body,
        line = body ++ CR /\
        _parseFrame closed_session body
        = inr g) /\
    id g = id std_frame_example /\
    is_ext_id g = is_ext_id std_frame_example /\
    is_remote g = is_remote std_frame_example /\
    dlc g = Z.of_nat (List.length (data std_frame_example)) /\
    data g = data std_frame_example.
Proof.
  apply (std_roundtrip _ std_frame_example false).
  - reflexivity.
  - reflexivity.
  - simpl. lia.
  - simpl. lia.
  - unfold is_byte. simpl. repeat constructor; lia.
Defined.

(** X5 -- The extended-identifier round trip, as far as it goes: the identifier,
    the remote flag, the length and the data come back, the identifier
    kind comes back in [id_ext_id], and [is_ext_id] is [false]. *)
Lemma ext_roundtrip_fields (this : slcan) (f : frame) (remote : bool) :
  is_ext_id f = Some true ->
  is_remote f = Some remote ->
  (0 <= id f <= 0x1FFFFFFF)%Z ->
  List.length (data f) <= 8 ->
  Forall is_byte (data f) ->
  exists f' line g,
    _packFrame f = inr (f', line) /\
    _parseFrame this line = inr g /\
    id g = id f /\
    is_ext_id g = Some false /\
    id_ext_id g = Some true /\
    is_remote g = is_remote f /\
    dlc g = Z.of_nat (List.length (data f)) /\
    data g = data f.
Proof.
  intros He Hr Hid Hn Hbs.
  assert (Hid' : (0 <= id f < 16 ^ Z.of_nat (id_len (Some true)))%Z)
    by (change (16 ^ Z.of_nat (id_len (Some true)))%Z with 4294967296%Z; lia).
  destruct (parse_pack this f true remote CR He Hr Hid' Hn Hbs)
    as [f' [body [Hpack Hparse]]].
  eexists; eexists; eexists.
  split; [exact Hpack|]. split; [exact Hparse|].
  cbn. rewrite Hr. repeat split; reflexivity.
Qed.

(** C1 -- Extended-identifier round trip, at the frame with [id = 1],
    [is_ext_id = true] and eight zero bytes: the line is
    [T0000000180000000000000000] and parsing it gives a frame whose
    [is_ext_id] is [false], not the [true] of the frame that was packed;
    the flag read from the line is in the property [id_ext_id]. *)
Theorem ext_roundtrip_loses_is_ext_id (this : slcan) :
  exists f' g,
    _packFrame ext_frame_example = inr (f', "T0000000180000000000000000" ++ CR) /\
    _parseFrame this ("T0000000180000000000000000" ++ CR) = inr g /\
    is_ext_id g = Some false /\
    is_ext_id g <> is_ext_id ext_frame_example /\
    id_ext_id g = Some true /\
    id g = 1%Z /\ is_remote g = Some false /\ dlc g = 8%Z /\
    data g = data ext_frame_example.
Proof.
  eexists; eexists.
  split; [reflexivity|]. split; [reflexivity|].
  cbn. repeat split; try reflexivity. discriminate.
Qed.

(* ================================================================== *)
(** ** What _parseFrame reads of a line *)
(* ================================================================== *)

Lemma frame_type_append (this : slcan) (str extra : string)
      (ty : option bool * option bool) :
  frame_type this str = inr ty -> frame_type this (str ++ extra) = inr ty.
Proof.
  destruct str as [|c rest]; [discriminate|].
  unfold frame_type. cbn [get append].
  repeat (match goal with
          | |- context [if ?b then _ else _] => destruct b
          end; try exact (fun H => H)).
  discriminate.
Qed.

Lemma frame_type_width (this : slcan) (str : string)
      (is_ext is_rem : option bool) :
  frame_type this str = inr (is_ext, is_rem) -> id_len is_ext = id_width str.
Proof.
  destruct str as [|c rest]; [discriminate|].
  unfold frame_type, id_width. cbn [get].
  destruct (Ascii.eqb c "t") eqn:Et.
  { intros H; injection H as <- <-.
    apply Ascii.eqb_eq in Et. subst c. reflexivity. }
  destruct (Ascii.eqb c "r") eqn:Er.
  { intros H; injection H as <- <-.
    apply Ascii.eqb_eq in Er. subst c. reflexivity. }
  destruct (Ascii.eqb c "T") eqn:ET.
  { intros H; injection H as <- <-. reflexivity. }
  destruct (Ascii.eqb c "R") eqn:ER.
  { intros H; injection H as <- <-. reflexivity. }
  destruct (charCode c =? 7)%N; [|discriminate].
  destruct (loose_eq (_lastCMD this) CMD_OPEN_BUS); [discriminate|].
  intros H; injection H as <- <-. reflexivity.
Qed.

(** The data loop does not look past its last field. *)
Lemma read_data_append (str extra : string) (is_ext : option bool) (n : nat) :
  forall i acc,
    2 + id_len is_ext + 2 * (i + n) <= String.length str ->
    read_data (str ++ extra) is_ext n i acc = read_data str is_ext n i acc.
Proof.
  induction n as [|n IH]; intros i acc H; [reflexivity|].
  rewrite !read_data_step.
  rewrite substring_within by lia.
  destruct (Number _); [|reflexivity].
  apply IH. lia.
Qed.

(** The errors of the data loop name the index of the byte. *)
Lemma read_data_error (str : string) (is_ext : option bool) (n : nat) :
  forall i acc v,
    read_data str is_ext n i acc = inl v -> exists j, v = MalformedDataByte j.
Proof.
  induction n as [|n IH]; intros i acc v H; [discriminate|].
  rewrite read_data_step in H.
  destruct (Number _).
  - eapply IH; eassumption.
  - injection H as <-. exists i. reflexivity.
Qed.

(** [Number] of a single character: white space is [0], a decimal digit
    its value, anything else [NaN]. *)
Lemma Number_char (c : ascii) :
  Number (String c "")
  = if isWhiteSpace c then Some 0%Z else option_map Z.of_N (dec_value c).
Proof.
  destruct c as [[] [] [] [] [] [] [] []]; vm_compute; reflexivity.
Qed.

(** A DLC character that is there, is not white space, and is not one of
    the digits [0] to [8], is rejected once the identifier has parsed. *)
Lemma dlc_char_rejected (this : slcan) (str : string)
      (is_ext is_rem : option bool) (idv : Z) (c : ascii) :
  frame_type this str = inr (is_ext, is_rem) ->
  Number ("0x" ++ substring 1 (id_len is_ext) str) = Some idv ->
  substring (1 + id_len is_ext) 1 str = String c "" ->
  isWhiteSpace c = false ->
  (forall d, dec_value c = Some d -> (8 < d)%N) ->
  _parseFrame this str = inl MalformedDLC.
Proof.
  intros Hty Hid Hc Hws Hd.
  unfold _parseFrame. rewrite Hty. cbn [bind].
  rewrite id_slice, dlc_slice, Hid, Hc, Number_char, Hws.
  destruct (dec_value c) as [d|]; [|reflexivity].
  specialize (Hd d eq_refl). cbn [option_map].
  destruct (Z.ltb_spec (Z.of_N d) 0) as [?|_]; [lia|].
  destruct (Z.gtb_spec (Z.of_N d) 8) as [_|?]; [reflexivity | lia].
Qed.

(** X3 -- Every line but the empty one parses to a frame or fails with one of
    the enumerated errors. *)
Lemma parse_nonempty (this : slcan) (str : string) :
  str <> "" ->
  match _parseFrame this str with
  | inr _ => True
  | inl v => parse_error v
  end.
Proof.
  intros Hne. destruct str as [|c rest]; [congruence|].
  unfold _parseFrame.
  destruct (frame_type this (String c rest)) as [v|[is_ext is_rem]] eqn:Hty.
  - cbn [bind]. revert Hty. unfold frame_type. cbn [get].
    repeat (match goal with
            | |- context [if ?b then _ else _] => destruct b
            end; try discriminate).
    + intros H; injection H as <-. left. reflexivity.
    + intros H; injection H as <-. right; left. eexists. reflexivity.
  - cbn [bind]. rewrite id_slice, dlc_slice.
    destruct (Number ("0x" ++ _)); [|right; right; left; reflexivity].
    destruct (Number _) as [d|]; [|right; right; right; left; reflexivity].
    destruct ((d <? 0) || (d >? 8))%Z;
      [right; right; right; left; reflexivity|].
    destruct (read_data _ _ _ _ _) as [v|bs] eqn:Hrd; cbn [bind ret].
    + right; right; right; right. eapply read_data_error; eassumption.
    + exact I.
Qed.

(* ================================================================== *)
(** ** The claims on parsing *)
(* ================================================================== *)

(** C10, as amended -- Trailing input ignored: when a line that starts
    with [t], [r], [T] or [R] parses to a frame and is at least as long as
    the fields that frame occupies (type letter, identifier, DLC digit and
    [dlc] two-character data fields), any characters appended to the line
    leave the resulting frame the same, with no error. *)
Theorem trailing_input_ignored (this : slcan) (str extra : string) (f : frame) :
  is_frame_line str = true ->
  _parseFrame this str = inr f ->
  fields_width str f <= String.length str ->
  _parseFrame this (str ++ extra) = inr f.
Proof.
  intros _ Hp Hw. unfold _parseFrame in *.
  destruct (frame_type this str) as [v|[is_ext is_rem]] eqn:Hty;
    [discriminate|].
  rewrite (frame_type_append this str extra _ Hty).
  pose proof (frame_type_width this str _ _ Hty) as Hk.
  cbn [bind] in *. unfold fields_width in Hw.
  rewrite id_slice, dlc_slice in Hp. rewrite id_slice, dlc_slice.
  rewrite (substring_within str extra 1 (id_len is_ext)) by lia.
  destruct (Number ("0x" ++ _)) as [idv|]; [|discriminate].
  rewrite (substring_within str extra (1 + id_len is_ext) 1) by lia.
  destruct (Number _) as [d|]; [|discriminate].
  destruct ((d <? 0) || (d >? 8))%Z; [discriminate|].
  destruct (read_data str is_ext (Z.to_nat d) 0 []) as [v|bs] eqn:Hrd;
    [discriminate|].
  cbn [bind ret] in Hp. injection Hp as <-. cbn [dlc set_data set_dlc] in Hw.
  rewrite read_data_append by lia. rewrite Hrd. reflexivity.
Qed.

Lemma trailing_input_ignored_witness :
  _parseFrame closed_session ("t1231AB" ++ "0" ++ CR)
  = inr (parsed 0x123 (Some false) (Some false) 1 [0xAB]%Z).
Proof.
  apply (trailing_input_ignored closed_session "t1231AB" ("0" ++ CR)).
  - reflexivity.
  - reflexivity.
  - vm_compute. lia.
Defined.

(** C10, as stated, fails on a line whose last data field is cut short:
    [t1231A] parses, its one data byte read from the single digit [A];
    with [B] appended the byte is [0xAB] and the frame another one. *)
Lemma trailing_input_counterexample :
  exists f g,
    is_frame_line "t1231A" = true /\
    _parseFrame closed_session "t1231A" = inr f /\
    data f = [10]%Z /\
    _parseFrame closed_session ("t1231A" ++ "B") = inr g /\
    data g = [171]%Z /\
    _parseFrame closed_session ("t1231A" ++ "B") <> inr f.
Proof.
  eexists; eexists.
  split; [reflexivity|]. split; [reflexivity|]. split; [reflexivity|].
  split; [reflexivity|]. split; [reflexivity|].
  vm_compute. discriminate.
Qed.

(** C5 -- Parse totality, at the empty line: [str[0]] is [undefined],
    and [_parseFrame] fails with the runtime's [TypeError], which is none
    of the enumerated parse errors. *)
Theorem parse_empty_line_type_error (this : slcan) :
  _parseFrame this "" = inl VTypeError /\ ~ parse_error VTypeError.
Proof.
  split; [reflexivity|].
  intros [H|[[s H]|[H|[H|[i H]]]]]; discriminate.
Qed.

(** C3 -- DLC rejection, at the lines that end after the identifier
    field: [Number("")] is [0], and [_parseFrame] returns a frame with
    [dlc = 0] and no data, for each of the four type letters. *)
Theorem absent_dlc_accepted (this : slcan) (ext remote : bool) :
  _parseFrame this
    (String (type_letter ext remote) (if ext then "00000123" else "123"))
  = inr (parsed 0x123 (Some ext) (Some remote) 0 []).
Proof. destruct ext, remote; reflexivity. Qed.

(** The other half of C3 holds: the DLC digit [9] is rejected. *)
Lemma dlc_digit_9_rejected (this : slcan) (ext remote : bool) (rest : string) :
  _parseFrame this
    (String (type_letter ext remote)
            ((if ext then "00000123" else "123") ++ "9" ++ rest))
  = inl MalformedDLC.
Proof.
  destruct ext, remote;
    (eapply dlc_char_rejected with (c := "9"%char);
     [ reflexivity
     | cbn [id_len truthy EXT_ID_LEN STD_ID_LEN substring append];
       rewrite ?substring_0_0; reflexivity
     | cbn [id_len truthy EXT_ID_LEN STD_ID_LEN substring append Nat.add];
       rewrite ?substring_0_0; reflexivity
     | reflexivity
     | intros d H; vm_compute in H; injection H as <-; reflexivity ]).
Qed.

Lemma packed_line_not_open (f : frame) (rest : string) :
  String.eqb (type_char f ++ rest) CMD_OPEN_BUS = false.
Proof.
  unfold type_char.
  destruct (truthy (is_remote f)), (truthy (is_ext_id f)); reflexivity.
Qed.

(** C2 -- BEL handling: after the open command [O\r], a line that is the
    single character BEL fails with the open-failed error.  After the
    line of a packed frame, the BEL branch assigns nothing and falls
    through: the identifier slice is empty and the error is
    [Invalid ID value], not the unrecognized-type error. *)
Theorem bel_after_open_and_after_send (this : slcan) (f : frame) :
  _parseFrame (set_lastCMD this (Some CMD_OPEN_BUS)) BEL
  = inl AdapterOpenFailed /\
  match _packFrame f with
  | inr (_, line) =>
      _parseFrame (set_lastCMD this (Some line)) BEL = inl MalformedIdentifier
      /\ MalformedIdentifier <> MalformedFrameType BEL
  | inl _ => False
  end.
Proof.
  split; [reflexivity|].
  rewrite _packFrame_spec. unfold ret. split.
  - unfold _parseFrame, frame_type. cbn [get BEL].
    cbn [set_lastCMD _lastCMD loose_eq].
    rewrite packed_line_not_open. reflexivity.
  - vm_compute. discriminate.
Qed.

(* ================================================================== *)
(** ** The session *)
(* ================================================================== *)

Lemma callbacks_app (a b : list event) :
  callbacks (a ++ b) = (callbacks a ++ callbacks b)%list.
Proof.
  induction a as [|e a IH]; [reflexivity|].
  destruct e; simpl; now rewrite IH.
Qed.

Lemma writes_app (a b : list event) :
  writes (a ++ b) = (writes a ++ writes b)%list.
Proof.
  induction a as [|e a IH]; [reflexivity|].
  destruct e; simpl; now rewrite IH.
Qed.

(** On an open session [send] writes the packed line and records it as
    the last command. *)
Lemma send_connected (w : world) (f : frame) (port : SerialPort) :
  _conn (self w) = Some port ->
  exists f' line,
    _packFrame f = inr (f', line) /\
    send f w = (inr f', {| self := set_lastCMD (self w) (Some line);
                           trace := (trace w ++ [PortWrite line])%list |}).
Proof.
  intros Hc. eexists; eexists. split; [apply _packFrame_spec|].
  unfold send, mbind, read, lift, _serialWrite, on_conn, mbind, read,
    modify, emit, mret.
  rewrite Hc, _packFrame_spec. cbn. rewrite Hc. reflexivity.
Qed.

(** The open handshake: the bit rate, then the open command, which is
    the last command when the handshake is over. *)
Lemma open_callback_last_command (large : Z -> string) (w : world)
      (port : SerialPort) :
  _conn (self w) = Some port ->
  exists w',
    _serialOpenCallback large w = (inr tt, w') /\
    _conn (self w') = Some port /\
    _lastCMD (self w') = Some CMD_OPEN_BUS /\
    writes (trace w')
    = (writes (trace w)
         ++ [("S" ++ ToString large (_speed (self w)) ++ CR)%string;
             CMD_OPEN_BUS])%list.
Proof.
  intros Hc. eexists. split.
  - unfold _serialOpenCallback, _serialWrite, on_conn, mbind, read, modify,
      emit. cbn. rewrite Hc. cbn. rewrite Hc. cbn. rewrite Hc. reflexivity.
  - cbn. split; [exact Hc|]. split; [reflexivity|].
    rewrite <- !app_assoc, !writes_app. cbn. rewrite ?app_nil_r. reflexivity.
Qed.

(** BEL in the session: right after the handshake it is the open failure;
    once a frame has been sent it is read as a line with an empty
    identifier. *)
Lemma bel_in_session (large : Z -> string) (w : world) (f : frame)
      (port : SerialPort) :
  _conn (self w) = Some port ->
  _parseFrame (self (snd (_serialOpenCallback large w))) BEL
  = inl AdapterOpenFailed /\
  _parseFrame (self (snd (send f (snd (_serialOpenCallback large w))))) BEL
  = inl MalformedIdentifier.
Proof.
  intros Hc.
  destruct (open_callback_last_command large w port Hc)
    as [w' [Ho [Hc' [Hl _]]]].
  rewrite Ho. cbn [snd]. split.
  - unfold _parseFrame, frame_type. cbn [get BEL]. rewrite Hl. reflexivity.
  - destruct (send_connected w' f port Hc') as [f' [line [Hp Hs]]].
    rewrite Hs. cbn [snd self].
    rewrite _packFrame_spec in Hp. injection Hp as _ <-.
    unfold _parseFrame, frame_type. cbn [get BEL].
    cbn [set_lastCMD _lastCMD loose_eq].
    rewrite packed_line_not_open. reflexivity.
Qed.

(** C9 -- Send precondition: while the session has no transport handle,
    [send] throws the not-connected error at once; nothing is written and
    the session, its last command included, is as it was. *)
Theorem send_before_open (w : world) (f : frame) :
  _conn (self w) = None ->
  send f w = (inl TransportNotReady, w) /\
  writes (trace (snd (send f w))) = writes (trace w) /\
  _lastCMD (self (snd (send f w))) = _lastCMD (self w).
Proof.
  intros Hc.
  assert (H : send f w = (inl TransportNotReady, w)).
  { unfold send, mbind, read. rewrite Hc. reflexivity. }
  rewrite H. repeat split; reflexivity.
Qed.

Lemma send_before_open_witness :
  send std_frame_example {| self := closed_session; trace := [] |}
  = (inl TransportNotReady, {| self := closed_session; trace := [] |}) /\
  writes (trace (snd (send std_frame_example
                           {| self := closed_session; trace := [] |})))
  = writes [] /\
  _lastCMD (self (snd (send std_frame_example
                            {| self := closed_session; trace := [] |})))
  = _lastCMD closed_session.
Proof.
  apply (send_before_open {| self := closed_session; trace := [] |}
                          std_frame_example).
  reflexivity.
Defined.

(** C8 -- Line-received boundary: when the line parses, the session sets
    the frame's [timestamp] to the current time, leaving its other
    properties, and calls the application's function with that frame,
    once: what the call does is all that happens besides, and what it
    throws is logged.  When the line does not parse, the error is logged
    and that is all: the outcome is the same whatever the application's
    function is, which is not called, and the session is as it was. *)
Theorem line_received (app : callback -> frame -> M unit) (w : world)
        (line : string) (now : Z) :
  match _parseFrame (self w) line with
  | inr f =>
      exists stamped,
        timestamp stamped = Some now /\
        id stamped = id f /\ is_ext_id stamped = is_ext_id f /\
        is_remote stamped = is_remote f /\ dlc stamped = dlc f /\
        data stamped = data f /\ id_ext_id stamped = id_ext_id f /\
        _serialRecvCallback app line now w
        = match app (recvFrameCallback (self w)) stamped
                    {| self := self w;
                       trace := (trace w ++ [AppCallback stamped])%list |}
          with
          | (inr _, w') => (inr tt, w')
          | (inl v, w') =>
              (inr tt, {| self := self w';
                          trace := (trace w' ++ [ConsoleLog v])%list |})
          end /\
        ((forall cb g v,
             callbacks (trace (snd (app cb g v))) = callbacks (trace v)) ->
         callbacks (trace (snd (_serialRecvCallback app line now w)))
         = (callbacks (trace w) ++ [stamped])%list)
  | inl err =>
      _serialRecvCallback app line now w
      = (inr tt, {| self := self w;
                    trace := (trace w ++ [ConsoleLog err])%list |}) /\
      callbacks (trace (snd (_serialRecvCallback app line now w)))
      = callbacks (trace w)
  end.
Proof.
  unfold _serialRecvCallback, mbind, emit, read.
  destruct (_parseFrame (self w) line) as [err|f]; cbn.
  - rewrite callbacks_app. cbn. rewrite app_nil_r. split; reflexivity.
  - exists (set_timestamp f now).
    do 7 (split; [reflexivity|]).
    set (entry := {| self := self w;
                     trace := (trace w ++ [AppCallback (set_timestamp f now)])%list |}).
    split.
    { destruct (app (recvFrameCallback (self w)) (set_timestamp f now) entry)
        as [[v|u] w']; reflexivity. }
    intros Hq.
    specialize (Hq (recvFrameCallback (self w)) (set_timestamp f now) entry).
    destruct (app (recvFrameCallback (self w)) (set_timestamp f now) entry)
      as [[v|u] w']; cbn in *.
    + rewrite callbacks_app, Hq. subst entry. cbn.
      rewrite callbacks_app. cbn. now rewrite app_nil_r.
    + rewrite Hq. subst entry. cbn. now rewrite callbacks_app.
Qed.

Lemma line_received_witness :
  match _parseFrame (self opened_world) "t1230" with
  | inr f =>
      exists stamped,
        timestamp stamped = Some 99%Z /\
        id stamped = id f /\ is_ext_id stamped = is_ext_id f /\
        is_remote stamped = is_remote f /\ dlc stamped = dlc f /\
        data stamped = data f /\ id_ext_id stamped = id_ext_id f /\
        _serialRecvCallback echo_app "t1230" 99 opened_world
        = match echo_app (recvFrameCallback (self opened_world)) stamped
                    {| self := self opened_world;
                       trace := (trace opened_world
                                   ++ [AppCallback stamped])%list |}
          with
          | (inr _, w') => (inr tt, w')
          | (inl v, w') =>
              (inr tt, {| self := self w';
                          trace := (trace w' ++ [ConsoleLog v])%list |})
          end /\
        ((forall cb g v,
             callbacks (trace (snd (echo_app cb g v))) = callbacks (trace v)) ->
         callbacks (trace (snd (_serialRecvCallback echo_app "t1230" 99
                                                    opened_world)))
         = (callbacks (trace opened_world) ++ [stamped])%list)
  | inl err =>
      _serialRecvCallback echo_app "t1230" 99 opened_world
      = (inr tt, {| self := self opened_world;
                    trace := (trace opened_world ++ [ConsoleLog err])%list |}) /\
      callbacks (trace (snd (_serialRecvCallback echo_app "t1230" 99
                                                 opened_world)))
      = callbacks (trace opened_world)
  end.
Proof.
  apply (line_received echo_app opened_world "t1230" 99).
Defined.

(* ================================================================== *)
(** ** More on [Number]: what a hexadecimal field can hold *)
(* ================================================================== *)

Lemma hex_value_lt (c : ascii) (d : N) :
  hex_value c = Some d -> (d < 16)%N.
Proof.
  intros H.
  destruct c as [[] [] [] [] [] [] [] []]; vm_compute in H;
    try discriminate; injection H as <-; reflexivity.
Qed.

(** The digits read with [acc] in front: [acc] shifted by their number,
    plus their own value. *)
Lemma hex_literal_acc (t : string) :
  forall acc,
    hex_literal t acc =
    match hex_literal t 0 with
    | Some v0 => Some (acc * 16 ^ N.of_nat (String.length t) + v0)%N
    | None => None
    end.
Proof.
  unfold hex_literal.
  induction t as [|c t IH]; intros acc.
  - cbn. f_equal. lia.
  - cbn [digits_literal String.length].
    destruct (hex_value c) as [d|]; [|reflexivity].
    rewrite (IH (16 * acc + d)%N), (IH (16 * 0 + d)%N).
    destruct (digits_literal 16 hex_value t 0) as [v0|]; [|reflexivity].
    f_equal. rewrite Nat2N.inj_succ, N.pow_succ_r'. lia.
Qed.

Lemma hex_literal_bound (t : string) :
  forall v, hex_literal t 0 = Some v -> (v < 16 ^ N.of_nat (String.length t))%N.
Proof.
  unfold hex_literal.
  induction t as [|c t IH]; intros v H.
  - cbn in H. injection H as <-. reflexivity.
  - cbn [digits_literal String.length] in *.
    destruct (hex_value c) as [d|] eqn:Hc; [|discriminate].
    apply hex_value_lt in Hc.
    change (digits_literal 16 hex_value t (16 * 0 + d))
      with (hex_literal t (16 * 0 + d)) in H.
    rewrite hex_literal_acc in H. unfold hex_literal in H.
    destruct (digits_literal 16 hex_value t 0) as [v0|]; [|discriminate].
    injection H as <-. specialize (IH v0 eq_refl).
    rewrite Nat2N.inj_succ, N.pow_succ_r'. nia.
Qed.

Lemma length_trimEnd (s : string) :
  String.length (trimEnd s) <= String.length s.
Proof.
  induction s as [|c s IH]; [reflexivity|].
  cbn [trimEnd]. destruct (trimEnd s).
  - destruct (isWhiteSpace c); simpl; lia.
  - simpl in *. lia.
Qed.

(** [Number("0x" + s)]: trailing white space of [s] is dropped, and what
    is left has to be a non-empty run of hexadecimal digits. *)
Lemma Number_0x (s : string) :
  Number ("0x" ++ s) =
  match trimEnd s with
  | EmptyString => None
  | String c t => option_map Z.of_N (hex_literal (String c t) 0)
  end.
Proof.
  unfold Number, trim.
  change ("0x" ++ s) with (String "0" (String "x" s)).
  change (trimStart (String "0" (String "x" s)))
    with (String "0" (String "x" s)).
  cbn [trimEnd].
  destruct (trimEnd s) as [|c t]; reflexivity.
Qed.

(** A field of at most [k] characters reads as a number below [16^k]. *)
Lemma Number_0x_bound (s : string) (k : nat) (v : Z) :
  String.length s <= k ->
  Number ("0x" ++ s) = Some v ->
  (0 <= v < 16 ^ Z.of_nat k)%Z.
Proof.
  intros Hk H. rewrite Number_0x in H.
  pose proof (length_trimEnd s) as Hl.
  destruct (trimEnd s) as [|c t]; [discriminate|].
  destruct (hex_literal (String c t) 0) as [n|] eqn:Hn; [|discriminate].
  injection H as <-. apply hex_literal_bound in Hn.
  split; [lia|].
  apply Z.lt_le_trans with (16 ^ Z.of_nat (String.length (String c t)))%Z.
  - rewrite <- nat_N_Z. change 16%Z with (Z.of_N 16).
    rewrite <- N2Z.inj_pow. now apply N2Z.inj_lt.
  - apply Z.pow_le_mono_r; lia.
Qed.

Lemma Number_0x_empty (s : string) (v : Z) :
  Number ("0x" ++ s) = Some v -> 1 <= String.length s.
Proof.
  intros H. destruct s; [discriminate | simpl; lia].
Qed.

(* ================================================================== *)
(** ** What a successful parse says about the line and the frame *)
(* ================================================================== *)

(** The steps behind a frame that [_parseFrame] returned. *)
Lemma _parseFrame_inv (this : slcan) (str : string) (g : frame) :
  _parseFrame this str = inr g ->
  exists is_ext is_rem idv d bs,
    frame_type this str = inr (is_ext, is_rem) /\
    Number ("0x" ++ substring 1 (id_len is_ext) str) = Some idv /\
    Number (substring (1 + id_len is_ext) 1 str) = Some d /\
    (0 <= d <= 8)%Z /\
    read_data str is_ext (Z.to_nat d) 0 [] = inr bs /\
    g = parsed idv is_ext is_rem d bs.
Proof.
  unfold _parseFrame. intros H.
  destruct (frame_type this str) as [v|[is_ext is_rem]]; [discriminate|].
  cbn [bind] in H. rewrite id_slice, dlc_slice in H.
  destruct (Number ("0x" ++ _)) as [idv|] eqn:Hid; [|discriminate].
  destruct (Number (substring _ _ _)) as [d|] eqn:Hd; [|discriminate].
  destruct (Z.ltb_spec d 0) as [?|Hd0]; [discriminate|].
  destruct (Z.gtb_spec d 8) as [?|Hd8]; [discriminate|].
  cbn [orb] in H.
  destruct (read_data str is_ext (Z.to_nat d) 0 []) as [v|bs] eqn:Hrd;
    [discriminate|].
  cbn [bind ret] in H. injection H as <-.
  exists is_ext, is_rem, idv, d, bs. repeat split; try assumption; lia.
Qed.

(** What the data loop returns: one byte for each iteration, each the
    value of its field. *)
Lemma read_data_ok (str : string) (is_ext : option bool) (n : nat) :
  forall i acc bs,
    read_data str is_ext n i acc = inr bs ->
    exists new,
      bs = (acc ++ new)%list /\ List.length new = n /\
      forall j, j < n ->
                Number ("0x" ++ substring (2 + id_len is_ext + 2 * (i + j)) 2 str)
                = nth_error new j /\
                nth_error new j <> None.
Proof.
  induction n as [|n IH]; intros i acc bs H.
  - injection H as <-. exists []. rewrite app_nil_r.
    repeat split; [lia | lia].
  - rewrite read_data_step in H.
    destruct (Number _) as [b|] eqn:Hb; [|discriminate].
    destruct (IH _ _ _ H) as [new [-> [Hlen Hj]]].
    exists (b :: new). rewrite <- app_assoc. split; [reflexivity|].
    split; [simpl; lia|].
    intros [|j] Hlt.
    + rewrite Nat.add_0_r, Hb. split; [reflexivity | discriminate].
    + replace (i + S j) with (S i + j) by lia. apply Hj. lia.
Qed.

Lemma nth_error_is_byte (str : string) (pos : nat) (l : list Z) :
  (forall j, j < List.length l ->
             exists p, Number ("0x" ++ substring p 2 str) = nth_error l j) ->
  Forall is_byte l.
Proof.
  intros H. apply Forall_forall. intros b Hin.
  destruct (In_nth_error l b Hin) as [j Hj].
  assert (Hlt : j < List.length l)
    by (apply nth_error_Some; congruence).
  destruct (H j Hlt) as [p Hp]. rewrite Hj in Hp.
  apply Number_0x_bound with (k := 2) in Hp.
  - unfold is_byte. change (16 ^ Z.of_nat 2)%Z with 256%Z in Hp. lia.
  - rewrite length_substring. lia.
Qed.

(** X6 -- The frame of a line that parsed: [dlc] is in [0, 8], there are [dlc]
    data bytes, each one a byte and the value of its own two-character
    field, and the identifier is below [16^3] or [16^8] as the type letter
    says. *)
Theorem parsed_frame_invariants (this : slcan) (str : string) (g : frame) :
  _parseFrame this str = inr g ->
  (0 <= dlc g <= 8)%Z /\
  List.length (data g) = Z.to_nat (dlc g) /\
  Forall is_byte (data g) /\
  (0 <= id g < 16 ^ Z.of_nat (id_width str))%Z /\
  forall j, j < List.length (data g) ->
            Number ("0x" ++ substring (2 + id_width str + 2 * j) 2 str)
            = nth_error (data g) j.
Proof.
  intros H.
  destruct (_parseFrame_inv this str g H)
    as [is_ext [is_rem [idv [d [bs [Hty [Hid [Hd [Hr [Hrd ->]]]]]]]]]].
  pose proof (frame_type_width this str _ _ Hty) as Hk.
  destruct (read_data_ok str is_ext _ _ _ _ Hrd) as [new [-> [Hlen Hj]]].
  cbn [parsed set_data set_dlc set_is_remote set_id_ext_id new_frame
         dlc data id app].
  rewrite <- Hk.
  assert (Hfields : forall j, j < List.length new ->
            Number ("0x" ++ substring (2 + id_len is_ext + 2 * j) 2 str)
            = nth_error new j).
  { intros j Hlt. rewrite Hlen in Hlt. apply (Hj j Hlt). }
  split; [exact Hr|]. split; [exact Hlen|]. split.
  - apply (nth_error_is_byte str 0). intros j Hlt.
    eexists. apply (Hfields j Hlt).
  - split; [|exact Hfields].
    apply Number_0x_bound with (k := id_len is_ext) in Hid; [exact Hid|].
    rewrite length_substring. lia.
Qed.

Lemma parsed_frame_invariants_witness :
  (0 <= dlc (parsed 0x123 (Some false) (Some false) 1 [0xAB]%Z) <= 8)%Z /\
  List.length (data (parsed 0x123 (Some false) (Some false) 1 [0xAB]%Z))
  = Z.to_nat (dlc (parsed 0x123 (Some false) (Some false) 1 [0xAB]%Z)) /\
  Forall is_byte (data (parsed 0x123 (Some false) (Some false) 1 [0xAB]%Z)) /\
  (0 <= id (parsed 0x123 (Some false) (Some false) 1 [0xAB]%Z)
   < 16 ^ Z.of_nat (id_width "t1231AB"))%Z /\
  forall j,
    j < List.length (data (parsed 0x123 (Some false) (Some false) 1 [0xAB]%Z)) ->
    Number ("0x" ++ substring (2 + id_width "t1231AB" + 2 * j) 2 "t1231AB")
    = nth_error (data (parsed 0x123 (Some false) (Some false) 1 [0xAB]%Z)) j.
Proof.
  apply (parsed_frame_invariants closed_session "t1231AB").
  reflexivity.
Defined.

(** X7 -- A line that parsed holds at least one character of the identifier,
    and at least one character of each data field its DLC announces: a
    line shorter than that never parses. *)
Theorem parsed_line_length (this : slcan) (str : string) (g : frame) :
  _parseFrame this str = inr g ->
  2 <= String.length str /\
  ((1 <= dlc g)%Z ->
   1 + id_width str + 2 * Z.to_nat (dlc g) <= String.length str).
Proof.
  intros H.
  destruct (_parseFrame_inv this str g H)
    as [is_ext [is_rem [idv [d [bs [Hty [Hid [Hd [Hr [Hrd ->]]]]]]]]]].
  pose proof (frame_type_width this str _ _ Hty) as Hk.
  cbn [parsed set_data set_dlc set_is_remote set_id_ext_id new_frame dlc].
  split.
  - apply Number_0x_empty in Hid. rewrite length_substring in Hid. lia.
  - intros Hd1.
    destruct (read_data_ok str is_ext _ _ _ _ Hrd) as [new [_ [Hlen Hj]]].
    destruct (Hj (Z.to_nat d - 1) ltac:(lia)) as [Hf Hne].
    destruct (nth_error new (Z.to_nat d - 1)) as [b|]; [|congruence].
    apply Number_0x_empty in Hf. rewrite length_substring in Hf.
    cbn [Nat.add] in Hf. lia.
Qed.

Lemma parsed_line_length_witness :
  2 <= String.length "t1231A" /\
  ((1 <= dlc (parsed 0x123 (Some false) (Some false) 1 [0xA]%Z))%Z ->
   1 + id_width "t1231A"
   + 2 * Z.to_nat (dlc (parsed 0x123 (Some false) (Some false) 1 [0xA]%Z))
   <= String.length "t1231A").
Proof.
  apply (parsed_line_length closed_session "t1231A").
  reflexivity.
Defined.

(* ================================================================== *)
(** ** Values wider than their field *)
(* ================================================================== *)












(* ================================================================== *)
(** ** The type letter and the session *)
(* ================================================================== *)

Lemma charCode_7 (c : ascii) :
  (charCode c =? 7)%N = true -> c = "007"%char.
Proof.
  intros H. apply N.eqb_eq in H. unfold charCode in H.
  rewrite <- (ascii_N_embedding c), H. reflexivity.
Qed.

(** X10 -- Only a line that starts with BEL is read with the session's last
    command in mind: on every other line the result is the same in any
    session. *)
Theorem parse_ignores_session (this this' : slcan) (str : string) :
  get 0 str <> Some "007"%char ->
  _parseFrame this str = _parseFrame this' str.
Proof.
  intros Hbel.
  assert (Hty : frame_type this str = frame_type this' str).
  { unfold frame_type. destruct (get 0 str) as [c|]; [|reflexivity].
    destruct (charCode c =? 7)%N eqn:H7.
    - apply charCode_7 in H7. subst c. congruence.
    - reflexivity. }
  unfold _parseFrame. now rewrite Hty.
Qed.

Lemma parse_ignores_session_witness :
  _parseFrame closed_session "t1230"
  = _parseFrame (set_lastCMD closed_session (Some CMD_OPEN_BUS)) "t1230".
Proof.
  apply (parse_ignores_session closed_session
           (set_lastCMD closed_session (Some CMD_OPEN_BUS)) "t1230").
  simpl. discriminate.
Defined.

Lemma decimal_code_spec (c : ascii) :
  Number_toString 10 (Z.of_N (charCode c)) = decimal_code c.
Proof.
  destruct c as [[] [] [] [] [] [] [] []]; vm_compute; reflexivity.
Qed.

(** The loop over the character codes appends their dump. *)
Lemma char_codes_closed (s : string) :
  forall debugStr, char_codes s debugStr = debugStr ++ code_dump s.
Proof.
  induction s as [|c s IH]; intros debugStr.
  - cbn. now rewrite append_nil_r.
  - cbn [char_codes code_dump]. rewrite IH, decimal_code_spec.
    rewrite !append_assoc. reflexivity.
Qed.

(** X11 -- A line whose first character is none of [t], [r], [T], [R]
    and BEL is rejected, whatever follows and whatever the session, with
    the message [Invalid slcand frame! (bad frame type char) -> ascii: ']
    followed by the line itself, ['   char_codes: ], the decimal code of
    every character of the line in brackets, in order, and CR LF. *)
Theorem unknown_type_rejected (this : slcan) (c : ascii) (rest : string) :
  is_frame_line (String c rest) = false ->
  c <> "007"%char ->
  _parseFrame this (String c rest)
  = inl (VString
           ("Invalid slcand frame! (bad frame type char) -> ascii: '"
              ++ String c rest ++ "'   char_codes: "
              ++ code_dump (String c rest) ++ CR ++ LF)).
Proof.
  unfold is_frame_line. cbn [get]. intros H Hbel.
  apply orb_false_iff in H. destruct H as [H HR].
  apply orb_false_iff in H. destruct H as [H HT].
  apply orb_false_iff in H. destruct H as [Ht Hr].
  unfold _parseFrame, frame_type. cbn [get]. rewrite Ht, Hr, HT, HR.
  destruct (charCode c =? 7)%N eqn:H7.
  - apply charCode_7 in H7. contradiction.
  - cbn [bind throw]. unfold bad_frame_type_message.
    rewrite char_codes_closed. do 2 f_equal.
    rewrite !append_assoc. reflexivity.
Qed.

Lemma unknown_type_rejected_witness :
  _parseFrame closed_session "x12"
  = inl (VString
           ("Invalid slcand frame! (bad frame type char) -> ascii: 'x12'   char_codes: [120][49][50]"
              ++ CR ++ LF)).
Proof.
  apply (unknown_type_rejected closed_session "x"%char "12").
  - reflexivity.
  - discriminate.
Defined.

(* ================================================================== *)
(** ** The DLC character and the data fields *)
(* ================================================================== *)

(** X4 -- Once the type and the identifier have parsed, a DLC character that is
    there is rejected exactly when it is neither white space nor one of
    the digits [0] to [8]. *)
Theorem dlc_rejected_iff (this : slcan) (str : string)
        (is_ext is_rem : option bool) (idv : Z) (c : ascii) :
  frame_type this str = inr (is_ext, is_rem) ->
  Number ("0x" ++ substring 1 (id_len is_ext) str) = Some idv ->
  substring (1 + id_len is_ext) 1 str = String c "" ->
  (_parseFrame this str = inl MalformedDLC <->
   isWhiteSpace c = false /\ forall d, dec_value c = Some d -> (8 < d)%N).
Proof.
  intros Hty Hid Hc. split.
  - unfold _parseFrame. rewrite Hty. cbn [bind].
    rewrite id_slice, dlc_slice, Hid, Hc, Number_char.
    assert (Hdata : forall d,
               bind (read_data str is_ext (Z.to_nat d) 0 [])
                    (fun data0 => ret (parsed idv is_ext is_rem d data0))
               <> inl MalformedDLC).
    { intros d H.
      destruct (read_data str is_ext (Z.to_nat d) 0 []) as [v|bs] eqn:Hrd;
        [|discriminate].
      apply read_data_error in Hrd. destruct Hrd as [j ->].
      cbn in H. discriminate. }
    destruct (isWhiteSpace c).
    + intros H. exfalso. exact (Hdata 0%Z H).
    + destruct (dec_value c) as [d|]; cbn [option_map].
      * destruct (Z.ltb_spec (Z.of_N d) 0) as [?|_]; [lia|].
        destruct (Z.gtb_spec (Z.of_N d) 8) as [Hgt|Hle]; cbn [orb].
        -- intros _. split; [reflexivity|].
           intros d' Hd'. injection Hd' as <-. lia.
        -- intros H. exfalso. exact (Hdata (Z.of_N d) H).
      * intros _. split; [reflexivity | discriminate].
  - intros [Hws Hd]. eapply dlc_char_rejected; eassumption.
Qed.

Lemma dlc_rejected_iff_witness :
  _parseFrame closed_session "t1239" = inl MalformedDLC <->
  isWhiteSpace "9" = false /\
  forall d, dec_value "9" = Some d -> (8 < d)%N.
Proof.
  apply (dlc_rejected_iff closed_session "t1239" (Some false) (Some false)
                          0x123%Z "9"%char).
  - reflexivity.
  - reflexivity.
  - reflexivity.
Defined.

Lemma read_data_first_bad (str : string) (is_ext : option bool) (n : nat) :
  forall i acc j,
    i <= j < i + n ->
    (forall m, i <= m < j ->
               Number ("0x" ++ substring (2 + id_len is_ext + 2 * m) 2 str)
               <> None) ->
    Number ("0x" ++ substring (2 + id_len is_ext + 2 * j) 2 str) = None ->
    read_data str is_ext n i acc = inl (MalformedDataByte j).
Proof.
  induction n as [|n IH]; intros i acc j Hj Hok Hbad; [lia|].
  rewrite read_data_step.
  destruct (Nat.eq_dec i j) as [->|Hne].
  - rewrite Hbad. reflexivity.
  - destruct (Number ("0x" ++ substring (2 + id_len is_ext + 2 * i) 2 str))
      as [b|] eqn:Hb.
    + apply IH; [lia | | exact Hbad].
      intros m Hm. apply Hok. lia.
    + exfalso. apply (Hok i); [lia | exact Hb].
Qed.

(** X9 -- The data error names the first field that does not parse: when the
    type, the identifier and the DLC have parsed and field [j], below the
    DLC, is the first that is not a hexadecimal number, the error is the
    data-byte error at position [j]. *)
Theorem first_bad_byte_reported (this : slcan) (str : string)
        (is_ext is_rem : option bool) (idv d : Z) (j : nat) :
  frame_type this str = inr (is_ext, is_rem) ->
  Number ("0x" ++ substring 1 (id_len is_ext) str) = Some idv ->
  Number (substring (1 + id_len is_ext) 1 str) = Some d ->
  (0 <= d <= 8)%Z ->
  j < Z.to_nat d ->
  (forall m, m < j ->
             Number ("0x" ++ substring (2 + id_len is_ext + 2 * m) 2 str)
             <> None) ->
  Number ("0x" ++ substring (2 + id_len is_ext + 2 * j) 2 str) = None ->
  _parseFrame this str = inl (MalformedDataByte j).
Proof.
  intros Hty Hid Hd Hr Hj Hok Hbad.
  unfold _parseFrame. rewrite Hty. cbn [bind].
  rewrite id_slice, dlc_slice, Hid, Hd.
  destruct (Z.ltb_spec d 0) as [?|_]; [lia|].
  destruct (Z.gtb_spec d 8) as [?|_]; [lia|].
  cbn [orb].
  rewrite (read_data_first_bad str is_ext (Z.to_nat d) 0 [] j);
    [reflexivity | lia | | exact Hbad].
  intros m Hm. apply Hok. lia.
Qed.

Lemma first_bad_byte_reported_witness :
  _parseFrame closed_session "T0000000180" = inl (MalformedDataByte 1).
Proof.
  apply (first_bad_byte_reported closed_session "T0000000180"
           (Some true) (Some false) 1%Z 8%Z 1).
  - reflexivity.
  - reflexivity.
  - reflexivity.
  - lia.
  - simpl. lia.
  - intros m Hm. assert (m = 0) by lia. subst m. vm_compute. discriminate.
  - reflexivity.
Defined.

(* ================================================================== *)
(** ** Lines and frames *)
(* ================================================================== *)

Lemma append_CR_inj (a b : string) : a ++ CR = b ++ CR -> a = b.
Proof.
  revert b. induction a as [|c a IH]; intros [|c2 b] H; simpl in H.
  - reflexivity.
  - injection H as _ H. destruct b; discriminate.
  - injection H as _ H. destruct a; discriminate.
  - injection H as -> H. f_equal. now apply IH.
Qed.

(** X12 -- No two frames that fit their fields share a line: the line determines
    the identifier, both flags and the data. *)
Theorem pack_injective (f1 f2 f1' f2' : frame) (line : string) :
  fits f1 -> fits f2 ->
  _packFrame f1 = inr (f1', line) ->
  _packFrame f2 = inr (f2', line) ->
  id f1 = id f2 /\ is_ext_id f1 = is_ext_id f2 /\
  is_remote f1 = is_remote f2 /\ data f1 = data f2.
Proof.
  intros [e1 [r1 [He1 [Hr1 [Hid1 [Hn1 Hb1]]]]]]
         [e2 [r2 [He2 [Hr2 [Hid2 [Hn2 Hb2]]]]]] Hp1 Hp2.
  destruct (parse_pack closed_session f1 e1 r1 "" He1 Hr1 Hid1 Hn1 Hb1)
    as [g1 [body1 [Hq1 Hparse1]]].
  destruct (parse_pack closed_session f2 e2 r2 "" He2 Hr2 Hid2 Hn2 Hb2)
    as [g2 [body2 [Hq2 Hparse2]]].
  rewrite Hp1 in Hq1. rewrite Hp2 in Hq2.
  injection Hq1 as _ Hl1. injection Hq2 as _ Hl2.
  assert (body1 = body2) by (apply append_CR_inj; congruence).
  subst body2. rewrite Hparse1 in Hparse2.
  injection Hparse2 as Hi Hr Hd He.
  rewrite He1, He2, Hr1, Hr2. repeat split; congruence.
Qed.

Lemma pack_injective_witness :
  id std_frame_example = id (set_dlc std_frame_example 3) /\
  is_ext_id std_frame_example = is_ext_id (set_dlc std_frame_example 3) /\
  is_remote std_frame_example = is_remote (set_dlc std_frame_example 3) /\
  data std_frame_example = data (set_dlc std_frame_example 3).
Proof.
  apply (pack_injective std_frame_example (set_dlc std_frame_example 3)
           (set_dlc std_frame_example 8) (set_dlc std_frame_example 8)
           ("t08183200856411030000" ++ CR)).
  - exists false, false. repeat split; try reflexivity; simpl; try lia.
    unfold is_byte. repeat constructor; lia.
  - exists false, false. repeat split; try reflexivity; simpl; try lia.
    unfold is_byte. repeat constructor; lia.
  - reflexivity.
  - reflexivity.
Defined.

(** X13 -- A standard frame that fits its fields, packed, parsed and packed
    again, gives the line it gave the first time. *)
Theorem repack_std (this : slcan) (f : frame) (remote : bool) :
  is_ext_id f = Some false ->
  is_remote f = Some remote ->
  (0 <= id f <= 0x7FF)%Z ->
  List.length (data f) <= 8 ->
  Forall is_byte (data f) ->
  exists f' line g g',
    _packFrame f = inr (f', line) /\
    _parseFrame this line = inr g /\
    _packFrame g = inr (g', line).
Proof.
  intros He Hr Hid Hn Hbs.
  assert (Hid' : (0 <= id f < 16 ^ Z.of_nat (id_len (Some false)))%Z)
    by (change (16 ^ Z.of_nat (id_len (Some false)))%Z with 4096%Z; lia).
  destruct (parse_pack this f false remote CR He Hr Hid' Hn Hbs)
    as [f' [body [Hpack Hparse]]].
  eexists; eexists; eexists; eexists.
  split; [exact Hpack|]. split; [exact Hparse|].
  rewrite _packFrame_spec in Hpack. injection Hpack as _ Hline.
  rewrite <- Hline, _packFrame_spec. unfold ret. do 2 f_equal.
  unfold type_char, id_field, packed_dlc.
  cbn [parsed set_data set_dlc set_is_remote set_id_ext_id new_frame
         is_remote is_ext_id id data].
  now rewrite He, Hr.
Qed.

Lemma repack_std_witness :
  exists f' line g g',
    _packFrame std_frame_example = inr (f', line) /\
    _parseFrame closed_session line = inr g /\
    _packFrame g = inr (g', line).
Proof.
  apply (repack_std closed_session std_frame_example false).
  - reflexivity.
  - reflexivity.
  - simpl. lia.
  - simpl. lia.
  - unfold is_byte. simpl. repeat constructor; lia.
Defined.

Lemma parse_nonempty_witness :
  match _parseFrame closed_session BEL with
  | inr _ => True
  | inl v => parse_error v
  end.
Proof.
  apply (parse_nonempty closed_session BEL). discriminate.
Defined.

Lemma ext_roundtrip_fields_witness :
  exists f' line g,
    _packFrame ext_frame_example = inr (f', line) /\
    _parseFrame closed_session line = inr g /\
    id g = id ext_frame_example /\
    is_ext_id g = Some false /\
    id_ext_id g = Some true /\
    is_remote g = is_remote ext_frame_example /\
    dlc g = Z.of_nat (List.length (data ext_frame_example)) /\
    data g = data ext_frame_example.
Proof.
  apply (ext_roundtrip_fields closed_session ext_frame_example false).
  - reflexivity.
  - reflexivity.
  - simpl. lia.
  - simpl. lia.
  - unfold is_byte. simpl. repeat constructor; lia.
Defined.

(* ================================================================== *)
(** ** The session over time *)
(* ================================================================== *)









(* ================================================================== *)
(** ** The case of the hexadecimal digits *)
(* ================================================================== *)

Lemma lower_hex_char_spec (c : ascii) :
  isWhiteSpace (lower_hex_char c) = isWhiteSpace c /\
  hex_value (lower_hex_char c) = hex_value c /\
  dec_value (lower_hex_char c) = dec_value c.
Proof.
  destruct c as [[] [] [] [] [] [] [] []]; vm_compute; repeat split.
Qed.

Lemma length_lower_hex (s : string) :
  String.length (lower_hex s) = String.length s.
Proof. induction s as [|c s IH]; simpl; [reflexivity | now rewrite IH]. Qed.

Lemma lower_hex_substring (s : string) :
  forall n m, substring n m (lower_hex s) = lower_hex (substring n m s).
Proof.
  induction s as [|c s IH]; intros n m.
  - cbn [lower_hex]. now rewrite !substring_nil.
  - destruct n as [|n]; [destruct m as [|m]|]; cbn [substring lower_hex].
    + reflexivity.
    + now rewrite IH.
    + apply IH.
Qed.

Lemma trimEnd_lower_hex (s : string) :
  trimEnd (lower_hex s) = lower_hex (trimEnd s).
Proof.
  induction s as [|c s IH]; [reflexivity|].
  cbn [lower_hex trimEnd]. rewrite IH.
  destruct (lower_hex_char_spec c) as [-> _].
  destruct (trimEnd s); cbn [lower_hex].
  - destruct (isWhiteSpace c); reflexivity.
  - reflexivity.
Qed.

Lemma hex_literal_lower_hex (s : string) :
  forall acc, hex_literal (lower_hex s) acc = hex_literal s acc.
Proof.
  unfold hex_literal.
  induction s as [|c s IH]; intros acc; [reflexivity|].
  cbn [lower_hex digits_literal].
  destruct (lower_hex_char_spec c) as [_ [-> _]].
  destruct (hex_value c); [apply IH | reflexivity].
Qed.

Lemma Number_0x_lower_hex (s : string) :
  Number ("0x" ++ lower_hex s) = Number ("0x" ++ s).
Proof.
  rewrite !Number_0x, trimEnd_lower_hex.
  destruct (trimEnd s) as [|c t]; [reflexivity|].
  cbn [lower_hex].
  change (String (lower_hex_char c) (lower_hex t)) with (lower_hex (String c t)).
  now rewrite hex_literal_lower_hex.
Qed.

Lemma Number_lower_hex_char (s : string) :
  String.length s <= 1 -> Number (lower_hex s) = Number s.
Proof.
  destruct s as [|c [|c' s]]; simpl; intros H; [reflexivity | | lia].
  rewrite !Number_char.
  destruct (lower_hex_char_spec c) as [-> [_ ->]]. reflexivity.
Qed.

Lemma frame_type_rest (this : slcan) (c : ascii) (a b : string) :
  is_frame_line (String c a) = true ->
  frame_type this (String c a) = frame_type this (String c b).
Proof.
  unfold is_frame_line, frame_type. cbn [get].
  destruct (Ascii.eqb c "t"); [reflexivity|].
  destruct (Ascii.eqb c "r"); [reflexivity|].
  destruct (Ascii.eqb c "T"); [reflexivity|].
  destruct (Ascii.eqb c "R"); [reflexivity|].
  discriminate.
Qed.

Lemma substring_field_cons (c : ascii) (s : string) (a b m : nat) :
  substring (2 + a + b) m (String c s) = substring (1 + a + b) m s.
Proof. reflexivity. Qed.

Lemma read_data_lower_hex (c : ascii) (rest : string)
      (is_ext : option bool) (n : nat) :
  forall i acc,
    read_data (String c (lower_hex rest)) is_ext n i acc
    = read_data (String c rest) is_ext n i acc.
Proof.
  induction n as [|n IH]; intros i acc; [reflexivity|].
  rewrite !read_data_step, !substring_field_cons.
  rewrite lower_hex_substring, Number_0x_lower_hex.
  destruct (Number _); [apply IH | reflexivity].
Qed.

(** X15 -- The parser does not mind the case of the hexadecimal digits: a frame
    line with [a] to [f] for [A] to [F] anywhere after the type letter
    gives the same result, frame or error. *)
Theorem parse_hex_case (this : slcan) (c : ascii) (rest : string) :
  is_frame_line (String c rest) = true ->
  _parseFrame this (String c (lower_hex rest))
  = _parseFrame this (String c rest).
Proof.
  intros Hty. unfold _parseFrame.
  rewrite <- (frame_type_rest this c rest (lower_hex rest) Hty).
  destruct (frame_type this (String c rest)) as [v|[is_ext is_rem]];
    [reflexivity|].
  cbn [bind]. rewrite !id_slice, !dlc_slice.
  change (substring 1 ?k (String ?x ?s)) with (substring 0 k s).
  change (substring (1 + ?k) ?m (String ?x ?s)) with (substring k m s).
  rewrite !lower_hex_substring, Number_0x_lower_hex.
  destruct (Number ("0x" ++ _)); [|reflexivity].
  rewrite Number_lower_hex_char by (rewrite length_substring; lia).
  destruct (Number _) as [d|]; [|reflexivity].
  destruct ((d <? 0) || (d >? 8))%Z; [reflexivity|].
  now rewrite read_data_lower_hex.
Qed.

Lemma parse_hex_case_witness :
  _parseFrame closed_session (String "t" (lower_hex "0AB2CDEF"))
  = _parseFrame closed_session "t0AB2CDEF".
Proof.
  apply (parse_hex_case closed_session "t"%char "0AB2CDEF").
  reflexivity.
Defined.
